(** * cross-seed: the Arr gateway (src/arr.ts) and the database handles

    A shallow embedding of the TypeScript sources.  Asynchronous functions
    become computations in a small state-and-exception monad; the state
    holds the outside world, the list of HTTP calls issued so far and the
    log.  Everything the sources import from modules that are not part of
    the verified files (utils.js, constants.js, the Node runtime) is a field
    of the [Platform] record, so that every theorem holds for every
    implementation of those imports.

    What an Arr instance answers is kept as the JSON value it is: the cast
    [responseBody as ResponseType] of [makeArrApiCall] checks nothing, so
    that a response may be null, and the object in its [movie] or [series]
    property may hold any property.  A response body is read after the
    headers have arrived, and reading it may fail. *)

From Stdlib Require Import String Ascii List NArith ZArith Bool Lia DecimalString.
From stdpp Require Import base gmap strings.
Import ListNotations.
Local Open Scope list_scope.
Local Open Scope string_scope.

(** ** JavaScript strings and values *)

Module Js.

(** [text.substring(0, n)]. *)
Definition substring0 (n : nat) (text : string) : string :=
  String.substring 0 n text.

(** A string is truthy exactly when it is not empty. *)
Definition truthy (s : string) : bool := negb (String.eqb s "").

(** A property that may be undefined is truthy when it is there and not
    empty. *)
Definition truthyProperty (p : option string) : bool :=
  match p with
  | Some s => truthy s
  | None => false
  end.

(** [haystack.includes(needle)]. *)
Fixpoint includes (needle haystack : string) : bool :=
  String.prefix needle haystack ||
  match haystack with
  | EmptyString => false
  | String _ rest => includes needle rest
  end.

(** [text.split(sep)] for a one-character separator. *)
Fixpoint split (sep : ascii) (text : string) : list string :=
  match text with
  | EmptyString => [EmptyString]
  | String c rest =>
      if Ascii.eqb c sep then EmptyString :: split sep rest
      else match split sep rest with
           | [] => [String c EmptyString]
           | piece :: pieces => String c piece :: pieces
           end
  end.

(** A number inside a template literal. *)
Definition ofNumber (n : N) : string :=
  NilZero.string_of_uint (N.to_uint n).

(** [text.toLowerCase()] and [text.toUpperCase()], on the letters a-z. *)
Definition lowerChar (c : ascii) : ascii :=
  let n := N_of_ascii c in
  if ((65 <=? n) && (n <=? 90))%N then ascii_of_N (n + 32) else c.

Definition upperChar (c : ascii) : ascii :=
  let n := N_of_ascii c in
  if ((97 <=? n) && (n <=? 122))%N then ascii_of_N (n - 32) else c.

Fixpoint mapChars (f : ascii -> ascii) (text : string) : string :=
  match text with
  | EmptyString => EmptyString
  | String c rest => String (f c) (mapChars f rest)
  end.

Definition toLowerCase (text : string) : string := mapChars lowerChar text.

Definition toUpperCase (text : string) : string := mapChars upperChar text.

Fixpoint skip (n : nat) (text : string) : string :=
  match n, text with
  | S m, String _ rest => skip m rest
  | _, _ => text
  end.

(** [text.replace(pattern, replacement)] for a string pattern: the first
    occurrence is replaced. *)
Fixpoint replaceFirst (pattern replacement text : string) : string :=
  if String.prefix pattern text
  then replacement ++ skip (String.length pattern) text
  else match text with
       | EmptyString => EmptyString
       | String c rest => String c (replaceFirst pattern replacement rest)
       end.

(** A value read from JSON.  The properties of an object are in the order
    of the text they were read from; numbers are integers, as the ids are. *)
#[warnings="-register-all"]
Inductive Json :=
| JNull
| JBool (b : bool)
| JNumber (n : Z)
| JString (s : string)
| JArray (items : list Json)
| JObject (properties : list (string * Json)).

(** An object seen through its own enumerable properties. *)
Definition Properties : Type := list (string * Json).

(** [value.key] on a value that is not null; [None] is undefined.  (On null
    the read throws; the functions that read a property say so.) *)
Definition prop (key : string) (value : Json) : option Json :=
  match value with
  | JObject properties =>
      match find (fun kv => String.eqb (fst kv) key) properties with
      | Some kv => Some (snd kv)
      | None => None
      end
  | _ => None
  end.

(** [value === null] *)
Definition isNull (value : Json) : bool :=
  match value with
  | JNull => true
  | _ => false
  end.

(** [a ?? b] *)
Definition coalesce (a : option Json) (b : Json) : Json :=
  match a with
  | None | Some JNull => b
  | Some v => v
  end.

(** The truthiness of a value that may be undefined. *)
Definition toBoolean (value : option Json) : bool :=
  match value with
  | None | Some JNull => false
  | Some (JBool b) => b
  | Some (JNumber n) => negb (n =? 0)%Z
  | Some (JString s) => truthy s
  | Some (JArray _) | Some (JObject _) => true
  end.

Fixpoint indexed (i : nat) (items : list Json) : Properties :=
  match items with
  | [] => []
  | item :: rest => (ofNumber (N.of_nat i), item) :: indexed (S i) rest
  end.

Definition characters (text : string) : list Json :=
  map (fun c => JString (String c EmptyString)) (list_ascii_of_string text).

(** [Object.entries(value)] on a value that is not null: the properties of
    an object, the elements of an array and the characters of a string under
    their indices, nothing for a number or a boolean. *)
Definition entries (value : Json) : Properties :=
  match value with
  | JObject properties => properties
  | JArray items => indexed 0 items
  | JString s => indexed 0 (characters s)
  | JNull | JBool _ | JNumber _ => []
  end.

(** [String(value)] *)
Fixpoint toString (value : Json) : string :=
  match value with
  | JNull => "null"
  | JBool true => "true"
  | JBool false => "false"
  | JNumber n => NilZero.string_of_int (Z.to_int n)
  | JString s => s
  | JArray items =>
      String.concat ","
        (map (fun item => match item with
                          | JNull => ""
                          | _ => toString item
                          end) items)
  | JObject _ => "[object Object]"
  end.

End Js.

(** ** The Arr gateway: data *)

Module Arr.

(** interface ExternalIds, as it is declared. *)
Record ExternalIds := {
  imdbId : option string;
  tmdbId : option string;
  tvdbId : option string
}.

Record Episode := { seasonNumber : Z; episodeNumber : Z }.

(** type ParsedMedia = ParsedMovie | ParsedSeries, as it is declared and as
    [getRelevantArrIds] is given it: each property may be missing;
    [isParsedMedia] singles out the values of the declared union.  What an
    Arr instance answers is not checked against this type and is kept as a
    [Js.Json]. *)
Record ParsedMedia := {
  movie : option ExternalIds;
  series : option ExternalIds;
  episodes : option (list Episode)
}.

Definition isParsedMedia (parsedMedia : ParsedMedia) : bool :=
  match movie parsedMedia, series parsedMedia with
  | Some _, None => true
  | None, Some _ => true
  | _, _ => false
  end.

(** The answer to the ping at /api: [{ current: string }]. *)
Record ArrPing := { current : option string }.

(** A JavaScript Error: its name, its message and its cause. *)
#[warnings="-register-all"]
Inductive JsError :=
| mkError (errName errMessage : string) (errCause : option JsError).

Definition errName (e : JsError) := let 'mkError n _ _ := e in n.
Definition errMessage (e : JsError) := let 'mkError _ m _ := e in m.
Definition errCause (e : JsError) := let 'mkError _ _ c := e in c.

(** [new Error(message)] *)
Definition Error (message : string) : JsError := mkError "Error" message None.

(** [String(error)], as Error.prototype.toString computes it. *)
Definition Error_toString (e : JsError) : string :=
  if String.eqb (errMessage e) "" then errName e
  else if String.eqb (errName e) "" then errMessage e
  else errName e ++ ": " ++ errMessage e.

(** Result.js *)
Inductive Result (T E : Type) :=
| Ok (value : T)
| Err (error : E).
Arguments Ok {T E} value.
Arguments Err {T E} error.

(** What a function call completes with: a value, or a thrown exception.
    [Raised] is an error of the platform that no handler caught, such as the
    error a response body ends with. *)
Inductive Exn :=
| CrossSeedError (message : string) (cause : option JsError)
| TypeError (message : string)
| Raised (error : JsError).

Inductive Completion (A : Type) :=
| Returns (value : A)
| Throws (exn : Exn).
Arguments Returns {A} value.
Arguments Throws {A} exn.

(** Modelled from the spec: the enum MediaType of utils.js, which the spec
    gives as MOVIE, EPISODE, SEASON, ANIME and OTHER.  [UNLISTED] stands for
    any further member, which the switch of [getRelevantArrInstances] sends
    to its default branch. *)
Inductive MediaType :=
| EPISODE | SEASON | MOVIE | ANIME | OTHER
| UNLISTED (value : string).

Definition MediaType_eqb (a b : MediaType) : bool :=
  match a, b with
  | EPISODE, EPISODE | SEASON, SEASON | MOVIE, MOVIE
  | ANIME, ANIME | OTHER, OTHER => true
  | UNLISTED x, UNLISTED y => String.eqb x y
  | _, _ => false
  end.

(** Modelled from the spec: the Searchee of searchee.js, of which arr.ts
    reads the name only. *)
Record Searchee := {
  name : string;
  fileList : list (string * N);
  totalSize : N;
  infoHash : option string
}.

(** The part of the runtime configuration that arr.ts reads. *)
Record RuntimeConfig := {
  sonarr : list string;
  radarr : list string
}.

(** Modelled from the spec: Caps and IdSearchParams of torznab.js, the
    supported ID types (imdbid, tmdbid, tvdbid) of movie and TV searches. *)
Record IdSearchCaps := {
  capTvdbId : bool;
  capTmdbId : bool;
  capImdbId : bool
}.

Record Caps := {
  movieIdSearch : IdSearchCaps;
  tvIdSearch : IdSearchCaps
}.

Record IdSearchParams := {
  tvdbid : option string;
  tmdbid : option string;
  imdbid : option string
}.

(** logger.js *)
Inductive Label := RADARR | SONARR | ARRS.
Inductive Level := verbose | debug.
Record LogEntry := { level : Level; label : option Label; logged : string }.

(** ** HTTP *)

Record URL := {
  origin : string;
  pathname : string;
  searchParams : list (string * string)
}.

(** [url.searchParams.has(name)] *)
Definition searchParams_has (key : string) (url : URL) : bool :=
  existsb (fun kv => String.eqb (fst kv) key) (searchParams url).

(** [url.searchParams.get(name)] *)
Definition searchParams_get (key : string) (url : URL) : option string :=
  match find (fun kv => String.eqb (fst kv) key) (searchParams url) with
  | Some kv => Some (snd kv)
  | None => None
  end.

(** [searchParams.set(name, value)]: the first entry of that name takes the
    value and the others go; without one, the pair is appended. *)
Fixpoint params_set (key value : string) (l : list (string * string))
  : list (string * string) :=
  match l with
  | [] => [(key, value)]
  | (k, v) :: rest =>
      if String.eqb k key
      then (key, value) :: filter (fun kv => negb (String.eqb (fst kv) key)) rest
      else (k, v) :: params_set key value rest
  end.

Record Request := {
  method : string;
  url : URL;
  headers : list (string * option string);
  signal : N   (* AbortSignal.timeout(signal), in milliseconds *)
}.

(** A response as [fetch] resolves with it: the status line has arrived, the
    body is still to be read.  [body] is what reading it to its end gives:
    the text, or the error the stream ends with (the connection is reset, or
    the signal of the request fires while the body arrives). *)
Record Response := {
  status : N;
  statusText : string;
  body : string + JsError
}.

(** [response.ok]: the status is in the range 200-299. *)
Definition Response_ok (response : Response) : bool :=
  ((200 <=? status response) && (status response <=? 299))%N.

(** What the network does with a request: after [latency] milliseconds it
    delivers a response or fails. *)
Record NetReply := {
  latency : N;
  delivered : Response + JsError
}.

Inductive FetchOutcome :=
| Resolved (response : Response)
| Rejected (reason : JsError).

Record Call := { request : Request; outcome : FetchOutcome }.

Inductive ChalkStyle := yellow | red | white | greenBold.

(** Everything arr.ts imports and this development does not define. *)
Record Platform := {
  (* the outside world and its answer to a request *)
  World : Type;
  network : Request -> World -> NetReply * World;
  (* Node: new URL(str), None when it throws; url.href; path.posix.join *)
  URL_parse : string -> option URL;
  URL_href : URL -> string;
  posixJoin : string -> string -> string;
  (* JSON.parse on the text of a body, None when it throws; for the ping,
     followed by the reading of [current] *)
  json_ParsedMedia : string -> option Js.Json;
  json_ArrPing : string -> option (option ArrPing);
  (* utils.js; getApikey and sanitizeUrl are given a configured string, and
     where that string cannot be addressed the TypeError is the one of the
     constructor applied to the sanitized string *)
  getApikey : string -> option string;
  sanitizeUrl : string -> string;
  stripExtension : string -> string;
  cleanseSeparators : string -> string;
  isTruthy : Js.Json -> bool;
  MediaType_value : MediaType -> string;
  (* constants.js and String.prototype.replace, String.prototype.trim *)
  RegExp : Type;
  RELEASE_GROUP_REGEX : RegExp;
  RESOLUTION_REGEX : RegExp;
  REPACK_PROPER_REGEX : RegExp;
  replace : string -> RegExp -> string -> string;
  trim : string -> string;
  (* chalk *)
  chalk : ChalkStyle -> string -> string
}.

(** ** The Arr gateway: operations *)

Section Operations.

Context (P : Platform) (config : RuntimeConfig).

(** The state an asynchronous function runs in. *)
Record Sys := {
  world : World P;
  calls : list Call;
  logs : list LogEntry
}.

Definition M (A : Type) : Type := Sys -> Completion A * Sys.

Definition ret {A} (a : A) : M A := fun sys => (Returns a, sys).

Definition throw {A} (exn : Exn) : M A := fun sys => (Throws exn, sys).

Definition bind {A B} (m : M A) (k : A -> M B) : M B :=
  fun sys =>
    match m sys with
    | (Returns a, sys') => k a sys'
    | (Throws exn, sys') => (Throws exn, sys')
    end.

Notation "'await' x := m 'in' k" := (bind m (fun x => k))
  (at level 10, x name, m at level 100, k at level 200).

Definition getRuntimeConfig : RuntimeConfig := config.

(** [logger.verbose] and [logger.debug] *)
Definition logger (lvl : Level) (lbl : option Label) (message : string) : M unit :=
  fun sys =>
    (Returns tt,
     {| world := world sys;
        calls := calls sys;
        logs := (logs sys ++ [{| level := lvl; label := lbl; logged := message |}])%list |}).

(** [ms("30 seconds")] *)
Definition ms_30_seconds : N := 30000.

(** The reason a signal made by AbortSignal.timeout aborts with: a
    DOMException named TimeoutError (DOM standard, AbortSignal.timeout). *)
Definition timeoutReason : JsError :=
  mkError "TimeoutError" "The operation was aborted due to timeout" None.

(** [fetch(url, { signal, headers })]: a GET.  The promise is rejected with
    the signal's reason when the signal fires before the network delivers,
    and with the network's error when the network fails. *)
Definition fetch (target : URL) (timeout : N) (hdrs : list (string * option string))
  : M FetchOutcome :=
  fun sys =>
    let req := {| method := "GET"; url := target; headers := hdrs; signal := timeout |} in
    let '(reply, w) := network P req (world sys) in
    let out :=
      if (timeout <=? latency reply)%N then Rejected timeoutReason
      else match delivered reply with
           | inl response => Resolved response
           | inr networkError => Rejected networkError
           end in
    (Returns out,
     {| world := w;
        calls := (calls sys ++ [{| request := req; outcome := out |}])%list;
        logs := logs sys |}).

(** [await response.text()]: the text of the body, or the error its stream
    ends with, thrown. *)
Definition Response_text (response : Response) : M string :=
  match body response with
  | inl text => ret text
  | inr streamError => throw (Raised streamError)
  end.

(** [await response.clone().json()] inside a [try]: [None] when it rejects,
    the body being unreadable or no JSON. *)
Definition Response_json {T : Type} (json : string -> option T)
    (response : Response) : option T :=
  match body response with
  | inl text => json text
  | inr _ => None
  end.

Definition getBodySampleMessage (text : string) : string :=
  let first1000Chars := Js.substring0 1000 text in
  if Js.truthy first1000Chars
  then "first 1000 characters: " ++ first1000Chars
  else "".

Definition makeArrApiCall {ResponseType : Type}
    (json : string -> option ResponseType)
    (uArrL resourcePath : string) (params : list (string * string))
  : M (Result ResponseType JsError) :=
  let apikey := getApikey P uArrL in
  match URL_parse P (sanitizeUrl P uArrL) with
  | None => throw (TypeError "Invalid URL")
  | Some url0 =>
      let url1 :=
        {| origin := origin url0;
           pathname := posixJoin P (pathname url0) resourcePath;
           searchParams :=
             fold_left (fun sp nv => params_set (fst nv) (snd nv) sp)
                       params (searchParams url0) |} in
      await fetched := fetch url1 ms_30_seconds [("X-Api-Key", apikey)] in
      match fetched with
      | Rejected networkError =>
          if String.eqb (errName networkError) "AbortError"
          then ret (Err (Error "connection timeout"))
          else ret (Err networkError)
      | Resolved response =>
          if negb (Response_ok response) then
            (* outside every try *)
            await responseText := Response_text response in
            let bodySampleMessage := getBodySampleMessage responseText in
            ret (Err (Error (Js.ofNumber (status response) ++ " "
                             ++ statusText response ++ " " ++ bodySampleMessage)))
          else
            match Response_json json response with
            | Some responseBody => ret (Ok responseBody)
            | None =>
                (* inside the catch block *)
                await responseText := Response_text response in
                ret (Err (Error ("Arr response was non-JSON. "
                                 ++ getBodySampleMessage responseText)))
            end
      end
  end.

Definition getMediaFromArr (uArrL title : string) : M (Result Js.Json JsError) :=
  makeArrApiCall (json_ParsedMedia P) uArrL "/api/v3/parse" [("title", title)].

Definition checkArrIsActive (uArrL arrInstance : string) : M unit :=
  await arrPingCheck := makeArrApiCall (json_ArrPing P) uArrL "/api" [] in
  match arrPingCheck with
  | Ok arrPingResponse =>
      (* arrPingResponse?.current *)
      let current_ :=
        match arrPingResponse with
        | Some ping => current ping
        | None => None
        end in
      if negb (Js.truthyProperty current_) then
        throw (CrossSeedError
                 ("Failed to establish a connection to " ++ arrInstance
                  ++ " URL: " ++ uArrL) None)
      else ret tt
  | Err error =>
      throw (CrossSeedError
               ("Could not contact " ++ arrInstance ++ " at " ++ uArrL)
               (Some (if Js.includes "fetch failed" (errMessage error)
                      then match errCause error with
                           | Some cause => cause
                           | None => error
                           end
                      else error)))
  end.

(** [strs.map((str) => new URL(str))]: the first string that is not a URL
    makes the constructor throw. *)
Fixpoint newURLs (strs : list string) : Completion (list URL) :=
  match strs with
  | [] => Returns []
  | str :: rest =>
      match URL_parse P str with
      | None => Throws (TypeError "Invalid URL")
      | Some u =>
          match newURLs rest with
          | Returns us => Returns (u :: us)
          | Throws exn => Throws exn
          end
      end
  end.

(** The loop [for (const url of urls)] of [validateUArrLs]. *)
Fixpoint validateEach (arrInstance : string) (urls : list URL) : M unit :=
  match urls with
  | [] => ret tt
  | u :: rest =>
      if negb (searchParams_has "apikey" u) then
        throw (CrossSeedError
                 (arrInstance ++ " url " ++ URL_href P u
                  ++ " does not specify an apikey") None)
      else
        await _ := checkArrIsActive (URL_href P u) arrInstance in
        validateEach arrInstance rest
  end.

(** One of the two blocks of [validateUArrLs]; its guard [if (sonarr)] holds
    for every array. *)
Definition validateInstances (arrInstance : string) (strs : list string) : M unit :=
  match newURLs strs with
  | Throws exn => throw exn
  | Returns urls => validateEach arrInstance urls
  end.

Definition validateUArrLs : M unit :=
  let cfg := getRuntimeConfig in
  await _ := validateInstances "Sonarr" (sonarr cfg) in
  validateInstances "Radarr" (radarr cfg).

(** [Object.entries(ids)] and [Object.values(ids)]: every property the
    object has, in its order.  The object [ids] of [scanAllArrsForMedia] and
    the parameters [externalIds] and [foundIds] are never null and are read
    through these two functions only; they are kept as their properties. *)
Definition Object_entries (ids : Js.Properties) : list (string * Js.Json) := ids.

Definition Object_values (ids : Js.Properties) : list Js.Json :=
  map snd (Object_entries ids).

(** The object literal [{}]. *)
Definition noIds : Js.Properties := [].

(** [array.includes(x)] on strings. *)
Definition Array_includes (x : string) (array : list string) : bool :=
  existsb (String.eqb x) array.

Definition formatFoundIds (foundIds : Js.Properties) : string :=
  String.concat " "
    (map (fun entry =>
            let '(idName, idValue) := entry in
            let name := Js.replaceFirst "ID" "" (Js.toUpperCase idName) in
            (* idValue ?? "N/A" *)
            let val := match idValue with
                       | Js.JNull => "N/A"
                       | _ => Js.toString idValue
                       end in
            chalk P yellow name ++ "=" ++ chalk P white val)
         (List.filter
            (fun entry =>
               Array_includes (Js.toLowerCase (fst entry))
                              ["imdbid"; "tmdbid"; "tvdbid"])
            (Object_entries foundIds))).

Definition logArrQueryResult (externalIds : Js.Properties) (searchTerm : string)
    (lbl : Label) (error : option JsError) : M unit :=
  match error with
  | Some err =>
      if negb (existsb (isTruthy P) (Object_values externalIds)) then
        await _ := logger verbose (Some lbl)
                     ("Lookup failed for " ++ chalk P yellow searchTerm ++ " - "
                      ++ chalk P red (errMessage err)) in
        logger verbose (Some lbl) "Make sure the item is added to an Arr instance."
      else
        (* String(error).split(":").slice(1)[0].trim() *)
        match nth_error (Js.split ":" (Error_toString err)) 1 with
        | None => throw (TypeError "Cannot read properties of undefined")
        | Some piece =>
            await _ := logger debug (Some lbl)
                         ("Failed to lookup IDs for " ++ chalk P yellow searchTerm
                          ++ " - (" ++ chalk P red (trim P piece) ++ ")") in
            logger debug None (Error_toString err)
        end
  | None =>
      let foundIdsStr := formatFoundIds externalIds in
      logger verbose (Some lbl)
        ("Found media for " ++ chalk P greenBold searchTerm ++ " -> " ++ foundIdsStr)
  end.

Definition getRelevantArrInstances (mediaType : MediaType) : list string :=
  let cfg := getRuntimeConfig in
  match mediaType with
  | SEASON | EPISODE => sonarr cfg
  | MOVIE => radarr cfg
  | ANIME | OTHER => (sonarr cfg ++ radarr cfg)%list
  | UNLISTED _ => []
  end.

(** [response.movie ?? response.series ?? {}] on a response that is not
    null. *)
Definition idsOf (response : Js.Json) : Js.Properties :=
  Js.entries
    (Js.coalesce (Js.prop "movie" response)
       (Js.coalesce (Js.prop "series" response) (Js.JObject []))).

(** The loop [for (const uArrL of uArrLs)] of [scanAllArrsForMedia]: [inl]
    is its [return resultOf(response)], [inr] the value of [error] when the
    instances are exhausted. *)
Fixpoint scanLoop (mediaType : MediaType) (title : string)
    (uArrLs : list string) (error : JsError) : M (Js.Json + JsError) :=
  match uArrLs with
  | [] => ret (inr error)
  | uArrL :: rest =>
      let name :=
        if MediaType_eqb mediaType OTHER
           && Array_includes uArrL (sonarr getRuntimeConfig)
        then title ++ " S00E00"
        else title in
      await result := getMediaFromArr uArrL name in
      match result with
      | Err e => scanLoop mediaType title rest e
      | Ok response =>
          (* response.movie: no property of null can be read *)
          if Js.isNull response then
            throw (TypeError "Cannot read properties of null (reading 'movie')")
          else
            let ids := idsOf response in
            if existsb (isTruthy P) (Object_values ids) then
              let lbl := if Js.toBoolean (Js.prop "movie" response)
                         then RADARR else SONARR in
              await _ := logArrQueryResult ids name lbl None in
              ret (inl response)
            else scanLoop mediaType title rest error
      end
  end.

Definition cleanTitle (searchee : Searchee) : string :=
  cleanseSeparators P
    (replace P
       (replace P
          (replace P (stripExtension P (name searchee))
                   (RELEASE_GROUP_REGEX P) "")
          (RESOLUTION_REGEX P) "")
       (REPACK_PROPER_REGEX P) "").

Definition scanAllArrsForMedia (searchee : Searchee) (mediaType : MediaType)
  : M (Result Js.Json bool) :=
  let uArrLs := getRelevantArrInstances mediaType in
  match uArrLs with
  | [] => ret (Err false)
  | _ :: _ =>
      let title :=
        if MediaType_eqb mediaType OTHER then cleanTitle searchee
        else name searchee in
      let error :=
        Error ("No ids found for " ++ title ++ " ["
               ++ MediaType_value P mediaType ++ "]") in
      await scanned := scanLoop mediaType title uArrLs error in
      match scanned with
      | inl response => ret (Ok response)
      | inr lastError =>
          await _ := logArrQueryResult noIds (name searchee) ARRS (Some lastError) in
          ret (Err false)
      end
  end.

(** [flag ? ids.field : undefined], where reading a property of an undefined
    [ids] throws. *)
Definition pick (flag : bool) (ids : option ExternalIds)
    (field : ExternalIds -> option string) : Completion (option string) :=
  if flag then
    match ids with
    | Some found => Returns (field found)
    | None => Throws (TypeError "Cannot read properties of undefined")
    end
  else Returns None.

Definition getRelevantArrIds (caps : Caps) (parsedMedia : ParsedMedia)
  : Completion IdSearchParams :=
  let idSearchCaps :=
    match movie parsedMedia with
    | Some _ => movieIdSearch caps
    | None => tvIdSearch caps
    end in
  let ids :=
    match movie parsedMedia with
    | Some m => Some m
    | None => series parsedMedia
    end in
  match pick (capTvdbId idSearchCaps) ids tvdbId with
  | Throws exn => Throws exn
  | Returns tv =>
      match pick (capTmdbId idSearchCaps) ids tmdbId with
      | Throws exn => Throws exn
      | Returns tm =>
          match pick (capImdbId idSearchCaps) ids imdbId with
          | Throws exn => Throws exn
          | Returns im => Returns {| tvdbid := tv; tmdbid := tm; imdbid := im |}
          end
      end
  end.

(** *** Reading the list of calls *)

(** The request [makeArrApiCall] hands to [fetch]. *)
Definition requestFor (base : URL) (uArrL resourcePath : string)
    (params : list (string * string)) : Request :=
  {| method := "GET";
     url := {| origin := origin base;
               pathname := posixJoin P (pathname base) resourcePath;
               searchParams :=
                 fold_left (fun sp nv => params_set (fst nv) (snd nv) sp)
                           params (searchParams base) |};
     headers := [("X-Api-Key", getApikey P uArrL)];
     signal := ms_30_seconds |}.

(** What [fetch] settles with, given the network's reply. *)
Definition settle (timeout : N) (reply : NetReply) : FetchOutcome :=
  if (timeout <=? latency reply)%N then Rejected timeoutReason
  else match delivered reply with
       | inl response => Resolved response
       | inr networkError => Rejected networkError
       end.

(** What [makeArrApiCall] completes with, given the outcome of its
    [fetch]: the error of the body when the body cannot be read, thrown, and
    a result otherwise. *)
Definition resultFor {T : Type} (json : string -> option T) (out : FetchOutcome)
  : Completion (Result T JsError) :=
  match out with
  | Rejected networkError =>
      Returns (if String.eqb (errName networkError) "AbortError"
               then Err (Error "connection timeout")
               else Err networkError)
  | Resolved response =>
      match body response with
      | inr streamError => Throws (Raised streamError)
      | inl text =>
          Returns
            (if Response_ok response then
               match json text with
               | Some responseBody => Ok responseBody
               | None => Err (Error ("Arr response was non-JSON. "
                                     ++ getBodySampleMessage text))
               end
             else
               Err (Error (Js.ofNumber (status response) ++ " "
                           ++ statusText response ++ " "
                           ++ getBodySampleMessage text)))
      end
  end.

(** The instance can be addressed: its sanitized URL is a URL. *)
Definition validInstance (uArrL : string) : bool :=
  match URL_parse P (sanitizeUrl P uArrL) with
  | Some _ => true
  | None => false
  end.

(** The call [c] is a GET of [resourcePath] under the Arr URL [uArrL], with
    that URL's apikey in the X-Api-Key header and the 30 s signal. *)
Definition asks (uArrL resourcePath : string) (c : Call) : Prop :=
  exists base,
    URL_parse P (sanitizeUrl P uArrL) = Some base /\
    method (request c) = "GET" /\
    origin (url (request c)) = origin base /\
    pathname (url (request c)) = posixJoin P (pathname base) resourcePath /\
    headers (request c) = [("X-Api-Key", getApikey P uArrL)] /\
    signal (request c) = 30000%N.

(** The [title] query parameter of a call. *)
Definition titleSent (c : Call) : option string :=
  searchParams_get "title" (url (request c)).

(** The value a call brought back: the body of a 2xx response, read to its
    end and as JSON of type [T]. *)
Definition broughtBack {T : Type} (json : string -> option T) (c : Call) : option T :=
  match outcome c with
  | Resolved response =>
      match body response with
      | inl text => if Response_ok response then json text else None
      | inr _ => None
      end
  | Rejected _ => None
  end.

Definition mediaOf (c : Call) : option Js.Json :=
  broughtBack (json_ParsedMedia P) c.

(** The call was answered, and the body of the answer could not be read to
    its end: the error the body ended with. *)
Definition bodyLost (c : Call) : option JsError :=
  match outcome c with
  | Resolved response =>
      match body response with
      | inl _ => None
      | inr streamError => Some streamError
      end
  | Rejected _ => None
  end.

(** The object of a response that the lookup is about: its movie, and its
    series when it has no movie. *)
Definition looksInto (response object : Js.Json) : Prop :=
  (Js.prop "movie" response = Some object /\ object <> Js.JNull) \/
  ((Js.prop "movie" response = None \/ Js.prop "movie" response = Some Js.JNull) /\
   Js.prop "series" response = Some object /\ object <> Js.JNull).

(** That object has a property whose value is truthy. *)
Definition hasTruthy (response : Js.Json) : Prop :=
  exists object key value,
    looksInto response object /\
    In (key, value) (Js.entries object) /\
    isTruthy P value = true.

(** That object has one of the three external ids, with a truthy value: the
    test as the specification words it. *)
Definition hasTruthyId (response : Js.Json) : Prop :=
  exists object key value,
    looksInto response object /\
    In (key, value) (Js.entries object) /\
    In key ["imdbId"; "tmdbId"; "tvdbId"] /\
    isTruthy P value = true.

(** The call ends the scan: its body could not be read, or it brought back
    null, or it brought back a response whose movie or series has a truthy
    property. *)
Definition ends (c : Call) : Prop :=
  bodyLost c <> None \/
  mediaOf c = Some Js.JNull \/
  exists response, mediaOf c = Some response /\ hasTruthy response.

(** The title [scanAllArrsForMedia] starts from. *)
Definition titleOf (searchee : Searchee) (mediaType : MediaType) : string :=
  if MediaType_eqb mediaType OTHER then cleanTitle searchee else name searchee.

(** The call [c] is the parse lookup [scanAllArrsForMedia] sends to the
    instance [uArrL] when the title of the searchee is [title]. *)
Definition parseCall (mediaType : MediaType) (title uArrL : string) (c : Call) : Prop :=
  asks uArrL "/api/v3/parse" c /\
  titleSent c =
    Some (if MediaType_eqb mediaType OTHER
             && Array_includes uArrL (sonarr getRuntimeConfig)
          then title ++ " S00E00"
          else title).

(** The ping was answered with a truthy [current]. *)
Definition pingOk (c : Call) : bool :=
  match broughtBack (json_ArrPing P) c with
  | Some (Some ping) => Js.truthyProperty (current ping)
  | _ => false
  end.

(** The sample of a response body inside an error message: nothing, or the
    announced prefix of at most 1000 characters. *)
Definition bodySample (text sample : string) : Prop :=
  sample = "" \/
  exists first, sample = "first 1000 characters: " ++ first /\
                String.prefix first text = true /\
                String.length first <= 1000.

(** The error a parse lookup failed with, when [makeArrApiCall] returned
    Err for it. *)
Definition failure (c : Call) : option JsError :=
  match resultFor (json_ParsedMedia P) (outcome c) with
  | Returns (Err e) => Some e
  | _ => None
  end.

(** The value of the variable [error] of [scanAllArrsForMedia] once the
    calls [cs] are made: the error of the last call that failed, and the
    initial one when none did. *)
Definition lastError (initial : JsError) (cs : list Call) : JsError :=
  fold_left
    (fun error c =>
       match failure c with
       | Some e => e
       | None => error
       end)
    cs initial.

(** The error [scanAllArrsForMedia] starts with. *)
Definition noIdsFound (searchee : Searchee) (mediaType : MediaType) : JsError :=
  Error ("No ids found for " ++ titleOf searchee mediaType ++ " ["
         ++ MediaType_value P mediaType ++ "]").

(** The line of the log that reports the ids found. *)
Definition foundEntry (response : Js.Json) (sent : string) : LogEntry :=
  {| level := verbose;
     label := Some (if Js.toBoolean (Js.prop "movie" response)
                    then RADARR else SONARR);
     logged := "Found media for " ++ chalk P greenBold sent ++ " -> "
               ++ formatFoundIds (idsOf response) |}.

(** The two lines of the log that report a lookup without result. *)
Definition lookupFailed (searchTerm : string) (reported : JsError) : list LogEntry :=
  [ {| level := verbose; label := Some ARRS;
       logged := "Lookup failed for " ++ chalk P yellow searchTerm ++ " - "
                 ++ chalk P red (errMessage reported) |};
    {| level := verbose; label := Some ARRS;
       logged := "Make sure the item is added to an Arr instance." |} ].


End Operations.

Arguments world {P} _.
Arguments calls {P} _.
Arguments logs {P} _.
Arguments ret {P A} a _.
Arguments throw {P A} exn _.
Arguments bind {P A B} m k _.

End Arr.
(** ** The database handles

    The module that opens cross-seed.db and the in-memory database. *)

Module Db.

Inductive JournalMode := DELETE | TRUNCATE | PERSIST | MEMORY | WAL | OFF.

(** [table.string(name)], with [.primary()] or without. *)
Record Column := { column : string; primary : bool }.

Record Table := {
  columns : list Column;
  rows : list (list (string * string))
}.

(** One SQLite database: its journal mode, which a database file keeps
    across connections when it is WAL, and its tables. *)
Record Database := {
  journal_mode : JournalMode;
  tables : gmap string Table
}.

(** What a connection leads to: a database file, or a database of its own (a
    slot of the private databases) for the filenames ":memory:" and "". *)
Inductive Connection :=
| File (filename : string)
| Private (slot : nat).

Inductive Statement :=
| CreateTable (table : string) (cols : list Column)
| DropTable (table : string)
| Insert (table : string) (row : list (string * string))
| DeleteAll (table : string)
| Select (table : string).

Inductive Opener := Sqlite | Knex.

Inductive Event :=
| Opened (by_ : Opener) (c : Connection)
| Pragma (c : Connection) (source : string)
| Closed (c : Connection)
| Ran (c : Connection) (stmt : Statement).

Record State := {
  files : gmap string Database;
  privates : list Database;
  events : list Event
}.

Definition record (e : Event) (st : State) : State :=
  {| files := files st; privates := privates st; events := (events st ++ [e])%list |}.

(** The database a connection leads to.  A file that is not there yet is
    created empty, in the default journal mode. *)
Definition fresh (mode : JournalMode) : Database :=
  {| journal_mode := mode; tables := ∅ |}.

Definition databaseAt (c : Connection) (st : State) : option Database :=
  match c with
  | File filename => Some (default (fresh DELETE) (files st !! filename))
  | Private slot => privates st !! slot
  end.

Definition store (c : Connection) (d : Database) (st : State) : State :=
  match c with
  | File filename =>
      {| files := <[filename := d]> (files st);
         privates := privates st;
         events := events st |}
  | Private slot =>
      {| files := files st;
         privates := <[slot := d]> (privates st);
         events := events st |}
  end.

(** Opening a connection by filename. *)
Definition open (by_ : Opener) (filename : string) (st : State) : Connection * State :=
  if String.eqb filename ":memory:" || String.eqb filename "" then
    let c := Private (length (privates st)) in
    (c, record (Opened by_ c)
          {| files := files st;
             privates := (privates st ++ [fresh MEMORY])%list;
             events := events st |})
  else
    let c := File filename in
    (c, record (Opened by_ c)
          (store c (default (fresh DELETE) (files st !! filename)) st)).

(** [new Sqlite(filename)] *)
Definition Sqlite_new (filename : string) (st : State) : Connection * State :=
  open Sqlite filename st.

(** [handle.pragma(source)], of which the journal mode is modelled: a
    database file takes the mode WAL, a private database keeps its own. *)
Definition Sqlite_pragma (handle : Connection) (source : string) (st : State) : State :=
  record (Pragma handle source)
    (if String.eqb source "journal_mode = WAL" then
       match handle, databaseAt handle st with
       | File _, Some d =>
           store handle {| journal_mode := WAL; tables := tables d |} st
       | _, _ => st
       end
     else st).

(** [handle.close()] *)
Definition Sqlite_close (handle : Connection) (st : State) : State :=
  record (Closed handle) st.

Record KnexConfig := {
  client : string;
  connection : string;   (* the filename, or ":memory:" *)
  migrationSource : bool;
  useNullAsDefault : bool
}.

Record KnexInstance := {
  configured : KnexConfig;
  conn : Connection
}.

(** [Knex.knex(config)] *)
Definition Knex_knex (config : KnexConfig) (st : State) : KnexInstance * State :=
  let '(c, st') := open Knex (connection config) st in
  ({| configured := config; conn := c |}, st').

(** The value a row gives a column; a column it does not name is NULL. *)
Definition valueOf (row : list (string * string)) (col : string) : option string :=
  match find (fun kv => String.eqb (fst kv) col) row with
  | Some kv => Some (snd kv)
  | None => None
  end.

(** The key of a row: its values in the primary-key columns. *)
Definition keyOf (cols : list Column) (row : list (string * string))
  : list (option string) :=
  map (fun c => valueOf row (column c)) (List.filter primary cols).

(** The new row has the key of a row that is there.  A key with a NULL in it
    equals no other. *)
Definition clashes (cols : list Column) (row row' : list (string * string)) : bool :=
  match keyOf cols row with
  | [] => false
  | key =>
      forallb (fun v => match v with Some _ => true | None => false end) key
      && bool_decide (key = keyOf cols row')
  end.

(** The effect of a statement on a database; [None] when SQLite rejects it:
    a table that is there already or is not there, a row that names a column
    the table does not have, a row whose primary key is taken. *)
Definition apply (stmt : Statement) (d : Database) : option Database :=
  let change tbls := Some {| journal_mode := journal_mode d; tables := tbls |} in
  match stmt with
  | CreateTable t cols =>
      match tables d !! t with
      | Some _ => None
      | None => change (<[t := {| columns := cols; rows := [] |}]> (tables d))
      end
  | DropTable t =>
      match tables d !! t with
      | Some _ => change (delete t (tables d))
      | None => None
      end
  | Insert t row =>
      match tables d !! t with
      | Some tbl =>
          if forallb (fun kv => existsb (fun c => String.eqb (column c) (fst kv))
                                        (columns tbl)) row
             && negb (existsb (clashes (columns tbl) row) (rows tbl))
          then change (<[t := {| columns := columns tbl;
                                 rows := (rows tbl ++ [row])%list |}]>
                         (tables d))
          else None
      | None => None
      end
  | DeleteAll t =>
      match tables d !! t with
      | Some tbl => change (<[t := {| columns := columns tbl; rows := [] |}]> (tables d))
      | None => None
      end
  | Select t =>
      match tables d !! t with
      | Some _ => Some d
      | None => None
      end
  end.

(** A statement run through a Knex instance: it reaches the database of the
    instance's connection and no other. *)
Definition run (knex : KnexInstance) (stmt : Statement) (st : State) : State :=
  record (Ran (conn knex) stmt)
    (match databaseAt (conn knex) st with
     | Some d =>
         match apply stmt d with
         | Some d' => store (conn knex) d' st
         | None => st
         end
     | None => st
     end).

Definition runAll (knex : KnexInstance) (stmts : list Statement) (st : State) : State :=
  fold_left (fun st stmt => run knex stmt st) stmts st.

Record Exports := { db : KnexInstance; memDB : KnexInstance }.

Section Module.

(** [appDir()] of configuration.js and [join] of path. *)
Context (appDir : string) (join : string -> string -> string).

Definition filename : string := join appDir "cross-seed.db".

Definition dataColumns : list Column :=
  [ {| column := "path"; primary := true |};
    {| column := "title"; primary := false |} ].

Definition ensembleColumns : list Column :=
  [ {| column := "path"; primary := true |};
    {| column := "ensemble"; primary := false |};
    {| column := "element"; primary := false |} ].

(** The top level of the module, statement by statement. *)
Definition initialise (st : State) : Exports * State :=
  let '(rawSqliteHandle, st) := Sqlite_new filename st in
  let st := Sqlite_pragma rawSqliteHandle "journal_mode = WAL" st in
  let st := Sqlite_close rawSqliteHandle st in
  let '(db_, st) :=
    Knex_knex {| client := "better-sqlite3"; connection := filename;
                 migrationSource := true; useNullAsDefault := true |} st in
  let '(memDB_, st) :=
    Knex_knex {| client := "better-sqlite3"; connection := ":memory:";
                 migrationSource := false; useNullAsDefault := true |} st in
  let st := run memDB_ (CreateTable "data" dataColumns) st in
  let st := run memDB_ (CreateTable "ensemble" ensembleColumns) st in
  ({| db := db_; memDB := memDB_ |}, st).

(** A later access: a statement through one of the two exported handles. *)
Inductive Access :=
| through_db (stmt : Statement)
| through_memDB (stmt : Statement).

Definition access (exports : Exports) (a : Access) (st : State) : State :=
  match a with
  | through_db stmt => run (db exports) stmt st
  | through_memDB stmt => run (memDB exports) stmt st
  end.

Definition accesses (exports : Exports) (l : list Access) (st : State) : State :=
  fold_left (fun st a => access exports a st) l st.

(** The tables of a database file, none when the file is not there. *)
Definition tablesOf (file : string) (st : State) : gmap string Table :=
  match files st !! file with
  | Some d => tables d
  | None => ∅
  end.

(** The journal mode the persistent database is accessed under. *)
Definition journalOf (exports : Exports) (st : State) : option JournalMode :=
  journal_mode <$> databaseAt (conn (db exports)) st.

End Module.

End Db.
(** ** A small platform to run the operations on *)

Module Toy.

Import Arr.

(** The text before the first [sep] and, when there is one, the text after. *)
Fixpoint cut (sep : ascii) (text : string) : string * option string :=
  match text with
  | EmptyString => (EmptyString, None)
  | String c rest =>
      if Ascii.eqb c sep then (EmptyString, Some rest)
      else let '(before, after) := cut sep rest in (String c before, after)
  end.

Definition pairOf (assignment : string) : string * string :=
  let '(key, value) := cut "=" assignment in
  (key, match value with Some v => v | None => "" end).

(** URLs of the shape http://host/path?key=value&key=value. *)
Definition URL_parse (str : string) : option URL :=
  if String.prefix "http://" str then
    let '(host, afterHost) := cut "/" (String.substring 7 (String.length str) str) in
    let pathAndQuery := match afterHost with Some t => t | None => "" end in
    let '(path, query) := cut "?" pathAndQuery in
    Some {| origin := "http://" ++ host;
            pathname := "/" ++ path;
            searchParams :=
              match query with
              | Some q => map pairOf (Js.split "&" q)
              | None => []
              end |}
  else None.

Definition URL_href (u : URL) : string :=
  origin u ++ pathname u ++
  match searchParams u with
  | [] => ""
  | sp => "?" ++ String.concat "&" (map (fun kv => fst kv ++ "=" ++ snd kv) sp)
  end.

Definition sanitizeUrl (str : string) : string := fst (cut "?" str).

Definition getApikey (str : string) : option string :=
  match URL_parse str with
  | Some u => searchParams_get "apikey" u
  | None => None
  end.

Definition posixJoin (a b : string) : string :=
  if String.eqb a "/" then b else a ++ b.

(** Three values of the declared type ParsedMedia. *)
Definition seriesAnswer : ParsedMedia :=
  {| movie := None;
     series := Some {| imdbId := None; tmdbId := None; tvdbId := Some "121361" |};
     episodes := Some [{| seasonNumber := 1; episodeNumber := 2 |}] |}.

Definition movieAnswer : ParsedMedia :=
  {| movie := Some {| imdbId := Some "tt0133093"; tmdbId := Some "603"; tvdbId := None |};
     series := None;
     episodes := None |}.

Definition unknownAnswer : ParsedMedia :=
  {| movie := None; series := None; episodes := None |}.

(** What the instances answer to a parse lookup. *)
Definition seriesJson : Js.Json :=
  Js.JObject
    [ ("title", Js.JString "Show");
      ("series", Js.JObject [ ("title", Js.JString "Show");
                              ("tvdbId", Js.JNumber 121361) ]);
      ("episodes", Js.JArray [ Js.JObject [ ("seasonNumber", Js.JNumber 1);
                                            ("episodeNumber", Js.JNumber 2) ] ]) ].

Definition movieJson : Js.Json :=
  Js.JObject
    [ ("title", Js.JString "The Matrix");
      ("movie", Js.JObject [ ("title", Js.JString "The Matrix");
                             ("imdbId", Js.JString "tt0133093");
                             ("tmdbId", Js.JNumber 603) ]) ].

(** A movie without any external id. *)
Definition titledJson : Js.Json :=
  Js.JObject [ ("movie", Js.JObject [ ("title", Js.JString "The Matrix") ]) ].

Definition json_ParsedMedia (text : string) : option Js.Json :=
  if String.eqb text "{series}" then Some seriesJson
  else if String.eqb text "{movie}" then Some movieJson
  else if String.eqb text "{movie:{title}}" then Some titledJson
  else if String.eqb text "{}" then Some (Js.JObject [])
  else if String.eqb text "null" then Some Js.JNull
  else None.

Definition json_ArrPing (text : string) : option (option ArrPing) :=
  if String.eqb text "{current:v3}" then Some (Some {| current := Some "v3" |})
  else if String.eqb text "{}" then Some (Some {| current := None |})
  else if String.eqb text "null" then Some None
  else None.

Definition answer (code : N) (reason text : string) : NetReply :=
  {| latency := 120;
     delivered := inl {| status := code; statusText := reason; body := inl text |} |}.

(** The error a body ends with when the connection is closed under it. *)
Definition terminated : JsError :=
  mkError "TypeError" "terminated"
    (Some (mkError "SocketError" "other side closed" None)).

(** A Sonarr and a Radarr that know the release, a host that knows nothing,
    a host that stays silent for 45 seconds, a host that refuses the
    connection, a host that answers with a movie without ids, a host that
    answers null, and two hosts that close the connection before the body
    is through, one after the status 200 and one after the status 503; any
    other host answers 404.  The world counts the requests. *)
Definition network (req : Request) (seen : nat) : NetReply * nat :=
  let host := origin (url req) in
  let path := pathname (url req) in
  let reply :=
    if String.eqb host "http://sonarr:8989" then
      if String.eqb path "/api" then answer 200 "OK" "{current:v3}"
      else answer 200 "OK" "{series}"
    else if String.eqb host "http://radarr:7878" then
      if String.eqb path "/api" then answer 200 "OK" "{current:v3}"
      else answer 200 "OK" "{movie}"
    else if String.eqb host "http://empty:8989" then
      if String.eqb path "/api" then answer 200 "OK" "{}"
      else answer 200 "OK" "{}"
    else if String.eqb host "http://slow:7878" then
      {| latency := 45000;
         delivered := inl {| status := 200; statusText := "OK";
                             body := inl "{movie}" |} |}
    else if String.eqb host "http://down:7878" then
      {| latency := 3;
         delivered := inr (mkError "TypeError" "fetch failed"
                             (Some (mkError "Error" "connect ECONNREFUSED" None))) |}
    else if String.eqb host "http://titled:7878" then
      answer 200 "OK" "{movie:{title}}"
    else if String.eqb host "http://null:8989" then
      answer 200 "OK" "null"
    else if String.eqb host "http://cut:8989" then
      {| latency := 80;
         delivered := inl {| status := 200; statusText := "OK";
                             body := inr terminated |} |}
    else if String.eqb host "http://reset:7878" then
      {| latency := 80;
         delivered := inl {| status := 503; statusText := "Service Unavailable";
                             body := inr terminated |} |}
    else answer 404 "Not Found" "<html>nothing here</html>" in
  (reply, S seen).

Inductive Pattern := releaseGroup | resolution | repackProper.

Definition platform : Platform :=
  {| World := nat;
     Arr.network := network;
     Arr.URL_parse := URL_parse;
     Arr.URL_href := URL_href;
     Arr.posixJoin := posixJoin;
     Arr.json_ParsedMedia := json_ParsedMedia;
     Arr.json_ArrPing := json_ArrPing;
     Arr.getApikey := getApikey;
     Arr.sanitizeUrl := sanitizeUrl;
     stripExtension := fun s => fst (cut "." s);
     cleanseSeparators := fun s => s;
     isTruthy := fun value => Js.toBoolean (Some value);
     MediaType_value := fun m =>
       match m with
       | EPISODE => "episode" | SEASON => "pack" | MOVIE => "movie"
       | ANIME => "anime" | OTHER => "unknown" | UNLISTED v => v
       end;
     RegExp := Pattern;
     RELEASE_GROUP_REGEX := releaseGroup;
     RESOLUTION_REGEX := resolution;
     REPACK_PROPER_REGEX := repackProper;
     replace := fun s _ _ => s;
     trim := fun s => s;
     chalk := fun _ s => s |}.

Definition sonarrUrl : string := "http://sonarr:8989/?apikey=s3cret".
Definition radarrUrl : string := "http://radarr:7878/?apikey=r4dar".
Definition emptyUrl : string := "http://empty:8989/?apikey=none".
Definition slowUrl : string := "http://slow:7878/?apikey=zzz".
Definition downUrl : string := "http://down:7878/?apikey=off".
Definition titledUrl : string := "http://titled:7878/?apikey=t1t".
Definition nullUrl : string := "http://null:8989/?apikey=nil".
Definition resetUrl : string := "http://reset:7878/?apikey=rst".
Definition cutUrl : string := "http://cut:8989/?apikey=cut".

Definition config : RuntimeConfig :=
  {| sonarr := [emptyUrl; sonarrUrl]; radarr := [radarrUrl] |}.

Definition start : Sys platform :=
  {| world := (0%nat : World platform); calls := []; logs := [] |}.

Definition searchee : Searchee :=
  {| name := "Show.S01.1080p-GRP.mkv";
     fileList := [("E01.mkv", 1000%N); ("E02.mkv", 1000%N)];
     totalSize := 2000;
     infoHash := None |}.

(** The configured URLs, as [new URL] reads them. *)
Definition sonarrUrls : list URL :=
  [ {| origin := "http://empty:8989"; pathname := "/";
       searchParams := [("apikey", "none")] |};
    {| origin := "http://sonarr:8989"; pathname := "/";
       searchParams := [("apikey", "s3cret")] |} ].

Definition radarrUrls : list URL :=
  [ {| origin := "http://radarr:7878"; pathname := "/";
       searchParams := [("apikey", "r4dar")] |} ].

(** A configuration whose instances all answer the ping, and one with a
    string that is no URL. *)
Definition goodConfig : RuntimeConfig :=
  {| sonarr := [sonarrUrl]; radarr := [radarrUrl] |}.

Definition badConfig : RuntimeConfig :=
  {| sonarr := [sonarrUrl; "not a url"]; radarr := [radarrUrl] |}.

(** An application directory, [path.join] on two segments, and a disk
    without any database. *)
Definition appDir : string := "/config".

Definition join (a b : string) : string := a ++ "/" ++ b.

Definition disk : Db.State :=
  {| Db.files := ∅; Db.privates := []; Db.events := [] |}.

End Toy.

(** * Properties of the Arr gateway *)

Module ArrSpec.

Import Arr.

Example substring0_short : Js.substring0 3 "ab" = "ab".
Proof. reflexivity. Qed.

Example substring0_long : Js.substring0 3 "abcdef" = "abc".
Proof. reflexivity. Qed.

Example includes_inner : Js.includes "fetch failed" "TypeError: fetch failed" = true.
Proof. reflexivity. Qed.

Example split_colon : Js.split ":" "Error: boom: x" = ["Error"; " boom"; " x"].
Proof. reflexivity. Qed.

Example ofNumber_404 : Js.ofNumber 404 = "404".
Proof. reflexivity. Qed.

Example label_of_name :
  map (fun idName => Js.replaceFirst "ID" "" (Js.toUpperCase idName))
      ["imdbId"; "tmdbId"; "tvdbId"; "Widget"]
  = ["IMDB"; "TMDB"; "TVDB"; "WGET"].
Proof. reflexivity. Qed.

Example entries_of_string :
  Js.entries (Js.JString "ab") = [("0", Js.JString "a"); ("1", Js.JString "b")].
Proof. reflexivity. Qed.

Example toString_of_array :
  Js.toString (Js.JArray [Js.JNumber 603; Js.JNull; Js.JString "x"; Js.JNumber (-2)])
  = "603,,x,-2".
Proof. reflexivity. Qed.

Example formatFoundIds_movie :
  formatFoundIds Toy.platform
    [("title", Js.JString "The Matrix"); ("imdbId", Js.JString "tt0133093");
     ("tmdbId", Js.JNumber 603); ("tvdbId", Js.JNull)]
  = "IMDB=tt0133093 TMDB=603 TVDB=N/A".
Proof. reflexivity. Qed.

Lemma substring0_prefix n text : String.prefix (Js.substring0 n text) text = true.
Proof.
  unfold Js.substring0. revert text.
  induction n as [|n IH]; intros [|c rest]; simpl; try reflexivity.
  destruct (ascii_dec c c) as [_|ne]; [apply IH | contradiction].
Qed.

Lemma substring0_length n text : String.length (Js.substring0 n text) <= n.
Proof.
  unfold Js.substring0. revert text.
  induction n as [|n IH]; intros [|c rest]; simpl; try lia.
  specialize (IH rest). lia.
Qed.

Lemma isNull_true value : Js.isNull value = true <-> value = Js.JNull.
Proof. destruct value; simpl; split; intros H; try discriminate; reflexivity. Qed.

Lemma coalesce_value a b value :
  a = Some value -> value <> Js.JNull -> Js.coalesce a b = value.
Proof. intros -> Hnn. destruct value; try reflexivity. contradiction. Qed.

Lemma coalesce_nullish a b :
  a = None \/ a = Some Js.JNull -> Js.coalesce a b = b.
Proof. intros [-> | ->]; reflexivity. Qed.

Lemma Forall_removelast_cons {A} (Q : A -> Prop) a l :
  Q a -> Forall Q (removelast l) -> Forall Q (removelast (a :: l)).
Proof.
  intros Ha Hl. destruct l as [|b l]; [constructor|].
  change (removelast (a :: b :: l)) with (a :: removelast (b :: l)).
  constructor; assumption.
Qed.

Section Facts.

Context (P : Platform) (config : RuntimeConfig).

Lemma getBodySampleMessage_sample text :
  bodySample text (getBodySampleMessage text).
Proof.
  unfold getBodySampleMessage, bodySample.
  destruct (Js.truthy (Js.substring0 1000 text)); [right | left; reflexivity].
  exists (Js.substring0 1000 text).
  split; [reflexivity | split].
  - apply substring0_prefix.
  - apply substring0_length.
Qed.

Lemma params_get_set key value o p l :
  searchParams_get key
    {| origin := o; pathname := p; searchParams := params_set key value l |}
  = Some value.
Proof.
  unfold searchParams_get. simpl.
  induction l as [|[k v] rest IH]; simpl.
  - rewrite String.eqb_refl. reflexivity.
  - destruct (String.eqb k key) eqn:E; simpl.
    + rewrite String.eqb_refl. reflexivity.
    + rewrite E. exact IH.
Qed.

(** One run of [makeArrApiCall] on an instance that can be addressed: one
    request goes out, and the call completes with what [resultFor] makes of
    the outcome. *)
Lemma makeArrApiCall_run {T : Type} (json : string -> option T)
    uArrL resourcePath params (sys : Sys P) base :
  URL_parse P (sanitizeUrl P uArrL) = Some base ->
  let req := requestFor P base uArrL resourcePath params in
  let out := settle ms_30_seconds (fst (network P req (world sys))) in
  makeArrApiCall P json uArrL resourcePath params sys
  = (resultFor json out,
     {| world := snd (network P req (world sys));
        calls := (calls sys ++ [{| request := req; outcome := out |}])%list;
        logs := logs sys |}).
Proof.
  intros Hbase req out. unfold makeArrApiCall. rewrite Hbase.
  unfold bind at 1. unfold fetch.
  fold (requestFor P base uArrL resourcePath params). fold req.
  destruct (network P req (world sys)) as [reply w] eqn:Hnet. simpl in out.
  unfold settle in out. fold out.
  unfold resultFor.
  destruct out as [response | networkError]; cbn [fst snd].
  - unfold Response_text, Response_json, bind.
    destruct (body response) as [text | streamError];
      destruct (Response_ok response); cbn [negb]; try reflexivity.
    destruct (json text); reflexivity.
  - destruct (String.eqb (errName networkError) "AbortError"); reflexivity.
Qed.

(** An instance that cannot be addressed makes [makeArrApiCall] throw before
    anything else happens. *)
Lemma makeArrApiCall_invalid {T : Type} (json : string -> option T)
    uArrL resourcePath params (sys : Sys P) :
  validInstance P uArrL = false ->
  makeArrApiCall P json uArrL resourcePath params sys
  = (Throws (TypeError "Invalid URL"), sys).
Proof.
  unfold validInstance, makeArrApiCall. intros Hbad.
  destruct (URL_parse P (sanitizeUrl P uArrL)); [discriminate | reflexivity].
Qed.

Lemma validInstance_base uArrL :
  validInstance P uArrL = true ->
  exists base, URL_parse P (sanitizeUrl P uArrL) = Some base.
Proof.
  unfold validInstance.
  destruct (URL_parse P (sanitizeUrl P uArrL)) as [base|]; [eauto | discriminate].
Qed.

(** What a call brought back, by the completion of [makeArrApiCall]. *)
Lemma resultFor_cases {T : Type} (json : string -> option T) (c : Call) :
  match resultFor json (outcome c) with
  | Returns (Ok v) => broughtBack json c = Some v /\ bodyLost c = None
  | Returns (Err _) => broughtBack json c = None /\ bodyLost c = None
  | Throws exn =>
      broughtBack json c = None /\
      exists streamError, bodyLost c = Some streamError /\ exn = Raised streamError
  end.
Proof.
  unfold resultFor, broughtBack, bodyLost.
  destruct (outcome c) as [response | networkError].
  - destruct (body response) as [text | streamError]; [|eauto].
    destruct (Response_ok response); [|auto].
    destruct (json text); auto.
  - destruct (String.eqb (errName networkError) "AbortError"); auto.
Qed.

Lemma requestFor_asks base uArrL resourcePath params out :
  URL_parse P (sanitizeUrl P uArrL) = Some base ->
  asks P uArrL resourcePath
    {| request := requestFor P base uArrL resourcePath params; outcome := out |}.
Proof.
  intros Hbase. exists base. simpl. repeat split; try reflexivity. exact Hbase.
Qed.

Lemma getMediaFromArr_run uArrL title (sys : Sys P) :
  validInstance P uArrL = true ->
  exists c sys',
    getMediaFromArr P uArrL title sys
    = (resultFor (json_ParsedMedia P) (outcome c), sys') /\
    calls sys' = (calls sys ++ [c])%list /\
    logs sys' = logs sys /\
    asks P uArrL "/api/v3/parse" c /\
    titleSent c = Some title.
Proof.
  intros Hvalid. destruct (validInstance_base uArrL Hvalid) as [base Hbase].
  unfold getMediaFromArr.
  rewrite (makeArrApiCall_run _ _ _ _ _ _ Hbase).
  set (req := requestFor P base uArrL "/api/v3/parse" [("title", title)]).
  set (out := settle ms_30_seconds (fst (network P req (world sys)))).
  exists {| request := req; outcome := out |}.
  eexists. split; [reflexivity|]. simpl.
  split; [reflexivity|]. split; [reflexivity|]. split.
  - apply requestFor_asks. exact Hbase.
  - unfold titleSent. simpl. apply params_get_set.
Qed.

(** The test of the loop, [Object.values(ids).some(isTruthy)], says that
    the movie of the response, or its series when it has no movie, has a
    property with a truthy value. *)
Lemma test_hasTruthy response :
  existsb (isTruthy P) (Object_values (idsOf response)) = true
  <-> hasTruthy P response.
Proof.
  unfold Object_values, Object_entries, idsOf, hasTruthy, looksInto.
  rewrite existsb_exists. split.
  - intros (v & Hin & Hv).
    apply in_map_iff in Hin as ([k v'] & Heq & Hin). simpl in Heq. subst v'.
    destruct (Js.prop "movie" response) as [m|] eqn:Hm.
    + destruct (Js.isNull m) eqn:Hnull.
      * apply isNull_true in Hnull. subst m. cbn [Js.coalesce] in Hin.
        destruct (Js.prop "series" response) as [s|] eqn:Hs;
          [|destruct Hin].
        destruct (Js.isNull s) eqn:Hnull.
        -- apply isNull_true in Hnull. subst s. destruct Hin.
        -- assert (Hnn : s <> Js.JNull)
             by (intros ->; discriminate Hnull).
           rewrite (coalesce_value _ _ s eq_refl Hnn) in Hin.
           exists s, k, v. split; [right; auto|]. split; assumption.
      * assert (Hnn : m <> Js.JNull) by (intros ->; discriminate Hnull).
        rewrite (coalesce_value _ _ m eq_refl Hnn) in Hin.
        exists m, k, v. split; [left; auto|]. split; assumption.
    + cbn [Js.coalesce] in Hin.
      destruct (Js.prop "series" response) as [s|] eqn:Hs; [|destruct Hin].
      destruct (Js.isNull s) eqn:Hnull.
      * apply isNull_true in Hnull. subst s. destruct Hin.
      * assert (Hnn : s <> Js.JNull) by (intros ->; discriminate Hnull).
        rewrite (coalesce_value _ _ s eq_refl Hnn) in Hin.
        exists s, k, v. split; [right; auto|]. split; assumption.
  - intros (object & key & value & Hlook & Hin & Hv).
    exists value. split; [|exact Hv].
    apply in_map_iff. exists (key, value). split; [reflexivity|].
    destruct Hlook as [[Hm Hnn] | (Hm & Hs & Hnn)].
    + rewrite (coalesce_value _ _ object Hm Hnn). exact Hin.
    + rewrite (coalesce_nullish _ _ Hm).
      rewrite (coalesce_value _ _ object Hs Hnn). exact Hin.
Qed.

(** A truthy external id is a truthy property; and on a response whose
    movie or series holds nothing but the three ids, as the interface
    ExternalIds declares, a truthy property is a truthy external id. *)
Lemma hasTruthyId_hasTruthy response :
  hasTruthyId P response -> hasTruthy P response.
Proof.
  intros (object & key & value & Hlook & Hin & _ & Hv).
  exists object, key, value. auto.
Qed.

Lemma hasTruthy_declared response :
  (forall object key value,
     looksInto response object ->
     In (key, value) (Js.entries object) ->
     In key ["imdbId"; "tmdbId"; "tvdbId"]) ->
  hasTruthy P response -> hasTruthyId P response.
Proof.
  intros Hdeclared (object & key & value & Hlook & Hin & Hv).
  exists object, key, value. eauto 6.
Qed.

(** A call that failed, or that brought back a response that is not null
    and whose movie or series has no truthy property, does not end the
    scan. *)
Lemma failed_goes_on (c : Call) e :
  resultFor (json_ParsedMedia P) (outcome c) = Returns (Err e) -> ~ ends P c.
Proof.
  intros Hout. pose proof (resultFor_cases (json_ParsedMedia P) c) as H.
  rewrite Hout in H. destruct H as [Hback Hlost].
  unfold ends, mediaOf. rewrite Hback, Hlost.
  intros [H | [H | (r & H & _)]]; congruence.
Qed.

Lemma answered_goes_on (c : Call) response :
  resultFor (json_ParsedMedia P) (outcome c) = Returns (Ok response) ->
  Js.isNull response = false ->
  existsb (isTruthy P) (Object_values (idsOf response)) = false ->
  ~ ends P c.
Proof.
  intros Hout Hnull Htest. pose proof (resultFor_cases (json_ParsedMedia P) c) as H.
  rewrite Hout in H. destruct H as [Hback Hlost].
  unfold ends, mediaOf. rewrite Hback, Hlost.
  intros [H | [H | (r & H & Hr)]]; [congruence | |].
  - inversion H; subst response. discriminate Hnull.
  - inversion H; subst r. apply test_hasTruthy in Hr. congruence.
Qed.

Lemma lastError_cons initial c cs :
  lastError P initial (c :: cs)
  = lastError P (match failure P c with
                 | Some e => e
                 | None => initial
                 end) cs.
Proof. reflexivity. Qed.

(** The loop of [scanAllArrsForMedia] on any list of instances: the calls
    it adds go to a prefix of the instances in their order, none but the
    last of them ends the scan, and the result says where the loop
    stopped. *)
Lemma scanLoop_trace mediaType title uArrLs :
  forall error (sys : Sys P),
    exists res sys' newc,
      scanLoop P config mediaType title uArrLs error sys = (res, sys') /\
      calls sys' = (calls sys ++ newc)%list /\
      Forall2 (parseCall P config mediaType title)
              (firstn (length newc) uArrLs) newc /\
      Forall (fun c => ~ ends P c) (removelast newc) /\
      match res with
      | Returns (inl response) =>
          exists earlier c sent,
            newc = (earlier ++ [c])%list /\
            titleSent c = Some sent /\
            mediaOf P c = Some response /\
            response <> Js.JNull /\
            hasTruthy P response /\
            logs sys' = (logs sys ++ [foundEntry P response sent])%list
      | Returns (inr e) =>
          length newc = length uArrLs /\
          Forall (fun c => ~ ends P c) newc /\
          logs sys' = logs sys /\
          e = lastError P error newc
      | Throws exn =>
          logs sys' = logs sys /\
          (exn = TypeError "Invalid URL" /\
           Forall (fun c => ~ ends P c) newc /\
           (exists uArrL,
              nth_error uArrLs (length newc) = Some uArrL /\
              validInstance P uArrL = false)
           \/
           exists earlier c,
             newc = (earlier ++ [c])%list /\
             ((exists streamError,
                 bodyLost c = Some streamError /\ exn = Raised streamError) \/
              (mediaOf P c = Some Js.JNull /\
               exn = TypeError "Cannot read properties of null (reading 'movie')")))
      end.
Proof.
  induction uArrLs as [|uArrL rest IH]; intros error sys.
  - exists (Returns (inr error)), sys, []. simpl. rewrite app_nil_r.
    repeat split; constructor.
  - set (sent := if MediaType_eqb mediaType OTHER
                    && Array_includes uArrL (sonarr config)
                 then title ++ " S00E00" else title).
    cbn [scanLoop]. unfold bind at 1. unfold getRuntimeConfig. fold sent.
    destruct (validInstance P uArrL) eqn:Hvalid.
    + destruct (getMediaFromArr_run uArrL sent sys Hvalid)
        as (c & sys1 & Hrun & Hcalls & Hlogs & Hasks & Htitle).
      assert (Hsent : parseCall P config mediaType title uArrL c)
        by (split; assumption).
      rewrite Hrun.
      (* the loop goes on after [c] *)
      assert (Hon : forall error',
                 ~ ends P c ->
                 error' = match failure P c with
                          | Some e => e
                          | None => error
                          end ->
                 exists res sys' newc,
                   scanLoop P config mediaType title rest error' sys1 = (res, sys') /\
                   calls sys' = (calls sys ++ newc)%list /\
                   Forall2 (parseCall P config mediaType title)
                           (firstn (length newc) (uArrL :: rest)) newc /\
                   Forall (fun c => ~ ends P c) (removelast newc) /\
                   match res with
                   | Returns (inl response) =>
                       exists earlier c sent,
                         newc = (earlier ++ [c])%list /\
                         titleSent c = Some sent /\
                         mediaOf P c = Some response /\
                         response <> Js.JNull /\
                         hasTruthy P response /\
                         logs sys' = (logs sys ++ [foundEntry P response sent])%list
                   | Returns (inr e) =>
                       length newc = length (uArrL :: rest) /\
                       Forall (fun c => ~ ends P c) newc /\
                       logs sys' = logs sys /\
                       e = lastError P error newc
                   | Throws exn =>
                       logs sys' = logs sys /\
                       (exn = TypeError "Invalid URL" /\
                        Forall (fun c => ~ ends P c) newc /\
                        (exists u,
                           nth_error (uArrL :: rest) (length newc) = Some u /\
                           validInstance P u = false)
                        \/
                        exists earlier c,
                          newc = (earlier ++ [c])%list /\
                          ((exists streamError,
                              bodyLost c = Some streamError /\
                              exn = Raised streamError) \/
                           (mediaOf P c = Some Js.JNull /\
                            exn = TypeError
                                    "Cannot read properties of null (reading 'movie')")))
                   end).
      { intros error' Hgo Herr.
        destruct (IH error' sys1) as (res & sys' & newc & Hloop & Hc & Hq & Hrm & Hout).
        exists res, sys', (c :: newc). split; [exact Hloop|]. split.
        { rewrite Hc, Hcalls, <- app_assoc. reflexivity. }
        split; [simpl; constructor; assumption|].
        split; [apply Forall_removelast_cons; assumption|].
        destruct res as [[response' | e'] | exn].
        - destruct Hout as (earlier & c' & sent' & -> & Ht & Hm & Hnn & Hh & Hl).
          exists (c :: earlier), c', sent'. rewrite <- Hlogs. auto 10.
        - destruct Hout as (Hlen & Hall & Hl & He).
          split; [simpl; congruence|]. split; [constructor; assumption|].
          split; [congruence|]. rewrite lastError_cons, <- Herr. exact He.
        - destruct Hout as (Hl & Hwhy). split; [congruence|].
          destruct Hwhy as [(He & Hall & u & Hnth & Hu) | (earlier & c' & -> & Hc')].
          + left. split; [exact He|]. split; [constructor; assumption|].
            exists u. split; assumption.
          + right. exists (c :: earlier), c'. split; [reflexivity | exact Hc']. }
      pose proof (resultFor_cases (json_ParsedMedia P) c) as Hcase.
      destruct (resultFor (json_ParsedMedia P) (outcome c))
        as [[response | e] | exn] eqn:Hout.
      * destruct Hcase as [Hback Hlost].
        destruct (Js.isNull response) eqn:Hnull.
        -- apply isNull_true in Hnull. subst response.
           exists (Throws (TypeError "Cannot read properties of null (reading 'movie')")),
             sys1, [c].
           split; [reflexivity|]. split; [exact Hcalls|].
           split; [simpl; constructor; [exact Hsent | constructor]|].
           split; [constructor|]. split; [exact Hlogs|].
           right. exists [], c. split; [reflexivity|]. right. split; [exact Hback | reflexivity].
        -- destruct (existsb (isTruthy P) (Object_values (idsOf response))) eqn:Hids.
           ++ eexists (Returns (inl response)), _, [c].
              split; [reflexivity|]. simpl. split; [exact Hcalls|].
              split; [constructor; [exact Hsent | constructor]|].
              split; [constructor|].
              exists [], c, sent. rewrite Hlogs.
              split; [reflexivity|]. split; [exact Htitle|]. split; [exact Hback|].
              split; [intros ->; discriminate Hnull|].
              split; [apply test_hasTruthy; exact Hids | reflexivity].
           ++ apply Hon.
              ** eapply answered_goes_on; eassumption.
              ** unfold failure. rewrite Hout. reflexivity.
      * apply Hon.
        -- eapply failed_goes_on; eassumption.
        -- unfold failure. rewrite Hout. reflexivity.
      * destruct Hcase as (Hback & streamError & Hlost & ->).
        exists (Throws (Raised streamError)), sys1, [c].
        split; [reflexivity|]. split; [exact Hcalls|].
        split; [simpl; constructor; [exact Hsent | constructor]|].
        split; [constructor|]. split; [exact Hlogs|].
        right. exists [], c. split; [reflexivity|]. left. eauto.
    + unfold getMediaFromArr. rewrite makeArrApiCall_invalid by exact Hvalid.
      exists (Throws (TypeError "Invalid URL")), sys, []. rewrite app_nil_r.
      split; [reflexivity|]. split; [reflexivity|].
      split; [constructor|]. split; [constructor|]. split; [reflexivity|].
      left. split; [reflexivity|]. split; [constructor|].
      exists uArrL. split; [reflexivity | exact Hvalid].
Qed.

Lemma MediaType_eqb_eq a b : MediaType_eqb a b = true <-> a = b.
Proof.
  split.
  - destruct a, b; simpl; try discriminate; try reflexivity.
    intros H. apply String.eqb_eq in H. congruence.
  - intros <-. destruct a; simpl; try reflexivity. apply String.eqb_refl.
Qed.

Lemma Array_includes_In x array : Array_includes x array = true <-> In x array.
Proof.
  unfold Array_includes. rewrite existsb_exists. split.
  - intros (y & Hin & Heq). apply String.eqb_eq in Heq. congruence.
  - intros Hin. exists x. split; [exact Hin | apply String.eqb_refl].
Qed.

(** [scanAllArrsForMedia] on any configuration. *)
Lemma scanAllArrsForMedia_trace searchee mediaType (sys : Sys P) :
  let instances := getRelevantArrInstances config mediaType in
  exists res sys' newc,
    scanAllArrsForMedia P config searchee mediaType sys = (res, sys') /\
    calls sys' = (calls sys ++ newc)%list /\
    Forall2 (parseCall P config mediaType (titleOf P searchee mediaType))
            (firstn (length newc) instances) newc /\
    Forall (fun c => ~ ends P c) (removelast newc) /\
    match res with
    | Returns (Ok response) =>
        exists earlier c sent,
          newc = (earlier ++ [c])%list /\
          titleSent c = Some sent /\
          mediaOf P c = Some response /\
          response <> Js.JNull /\
          hasTruthy P response /\
          logs sys' = (logs sys ++ [foundEntry P response sent])%list
    | Returns (Err b) =>
        b = false /\
        length newc = length instances /\
        Forall (fun c => ~ ends P c) newc /\
        (instances = [] /\ sys' = sys \/
         instances <> [] /\
         logs sys' =
         (logs sys ++
          lookupFailed P (name searchee)
            (lastError P (noIdsFound P searchee mediaType) newc))%list)
    | Throws exn =>
        logs sys' = logs sys /\
        (exn = TypeError "Invalid URL" /\
         Forall (fun c => ~ ends P c) newc /\
         (exists uArrL,
            nth_error instances (length newc) = Some uArrL /\
            validInstance P uArrL = false)
         \/
         exists earlier c,
           newc = (earlier ++ [c])%list /\
           ((exists streamError,
               bodyLost c = Some streamError /\ exn = Raised streamError) \/
            (mediaOf P c = Some Js.JNull /\
             exn = TypeError "Cannot read properties of null (reading 'movie')")))
    end.
Proof.
  intros instances. unfold scanAllArrsForMedia. fold instances.
  destruct instances as [|uArrL rest] eqn:Hlist.
  - exists (Returns (Err false)), sys, []. rewrite app_nil_r.
    split; [reflexivity|]. split; [reflexivity|].
    split; [constructor|]. split; [constructor|].
    split; [reflexivity|]. split; [reflexivity|]. split; [constructor|].
    left. split; reflexivity.
  - fold (titleOf P searchee mediaType). fold (noIdsFound P searchee mediaType).
    destruct (scanLoop_trace mediaType (titleOf P searchee mediaType)
                (uArrL :: rest) (noIdsFound P searchee mediaType) sys)
      as (res & sys1 & newc & Hloop & Hcalls & Hq & Hrm & Hout).
    unfold bind at 1. rewrite Hloop.
    destruct res as [[response | lastErr] | exn].
    + exists (Returns (Ok response)), sys1, newc.
      split; [reflexivity|]. split; [exact Hcalls|]. split; [exact Hq|].
      split; [exact Hrm | exact Hout].
    + destruct Hout as (Hlen & Hall & Hlogs & He).
      eexists (Returns (Err false)), _, newc. split; [reflexivity|]. simpl.
      split; [exact Hcalls|]. split; [exact Hq|]. split; [exact Hrm|].
      split; [reflexivity|]. split; [exact Hlen|]. split; [exact Hall|].
      right. split; [discriminate|]. rewrite Hlogs, He, <- app_assoc. reflexivity.
    + exists (Throws exn), sys1, newc.
      split; [reflexivity|]. split; [exact Hcalls|]. split; [exact Hq|].
      split; [exact Hrm | exact Hout].
Qed.

(** With instances that can be addressed, the scan asks every instance
    until a call ends it. *)
Lemma scanAllArrsForMedia_until searchee mediaType (sys : Sys P) :
  let instances := getRelevantArrInstances config mediaType in
  forallb (validInstance P) instances = true ->
  exists res sys' newc,
    scanAllArrsForMedia P config searchee mediaType sys = (res, sys') /\
    calls sys' = (calls sys ++ newc)%list /\
    Forall2 (parseCall P config mediaType (titleOf P searchee mediaType))
            (firstn (length newc) instances) newc /\
    Forall (fun c => ~ ends P c) (removelast newc) /\
    (length newc = length instances \/
     exists earlier c, newc = (earlier ++ [c])%list /\ ends P c).
Proof.
  intros instances Hvalid.
  destruct (scanAllArrsForMedia_trace searchee mediaType sys)
    as (res & sys' & newc & Hrun & Hcalls & Hq & Hrm & Hout).
  fold instances in Hq, Hout.
  exists res, sys', newc. split; [exact Hrun|]. split; [exact Hcalls|].
  split; [exact Hq|]. split; [exact Hrm|].
  destruct res as [[response | b] | exn].
  - destruct Hout as (earlier & c & sent & -> & _ & Hm & _ & Hh & _).
    right. exists earlier, c. split; [reflexivity|]. right. right. eauto.
  - destruct Hout as (_ & Hlen & _). left. exact Hlen.
  - destruct Hout as (_ & [(_ & _ & u & Hnth & Hu) | (earlier & c & -> & Hc)]).
    + apply nth_error_In in Hnth.
      rewrite forallb_forall in Hvalid. rewrite (Hvalid u Hnth) in Hu. discriminate.
    + right. exists earlier, c. split; [reflexivity|].
      destruct Hc as [(e & Hlost & _) | (Hnull & _)].
      * left. congruence.
      * right. left. exact Hnull.
Qed.

Lemma Forall2_weaken {A B} (R R' : A -> B -> Prop) l l' :
  (forall a b, R a b -> R' a b) -> Forall2 R l l' -> Forall2 R' l l'.
Proof. intros HR H. induction H; constructor; auto. Qed.

Lemma Forall2_right {A B} (R : A -> B -> Prop) (Q : B -> Prop) l l' :
  (forall a b, R a b -> Q b) -> Forall2 R l l' -> Forall Q l'.
Proof. intros HR H. induction H; constructor; eauto. Qed.

(** C2. [scanAllArrsForMedia] asks the relevant instances in their order,
    one after the other until a call ends the scan (it brought back a
    response with a truthy property, or null, or lost its body).  When the
    media type is OTHER, an instance of the configured Sonarr list is sent
    the cleaned title followed by " S00E00" and any other instance the
    cleaned title as it is; for every other media type the name of the
    searchee is sent, without suffix. *)
Theorem scanAllArrsForMedia_S00E00 searchee mediaType (sys : Sys P) :
  let instances := getRelevantArrInstances config mediaType in
  forallb (validInstance P) instances = true ->
  exists res sys' newc,
    scanAllArrsForMedia P config searchee mediaType sys = (res, sys') /\
    calls sys' = (calls sys ++ newc)%list /\
    Forall2
      (fun uArrL c =>
         asks P uArrL "/api/v3/parse" c /\
         (mediaType = OTHER -> In uArrL (sonarr config) ->
          titleSent c = Some (cleanTitle P searchee ++ " S00E00")) /\
         (mediaType = OTHER -> ~ In uArrL (sonarr config) ->
          titleSent c = Some (cleanTitle P searchee)) /\
         (mediaType <> OTHER -> titleSent c = Some (name searchee)))
      (firstn (length newc) instances) newc /\
    Forall (fun c => ~ ends P c) (removelast newc) /\
    (length newc = length instances \/
     exists earlier c, newc = (earlier ++ [c])%list /\ ends P c).
Proof.
  intros instances Hvalid.
  destruct (scanAllArrsForMedia_until searchee mediaType sys Hvalid)
    as (res & sys' & newc & Hrun & Hcalls & Hq & Hrm & Hlow).
  exists res, sys', newc. split; [exact Hrun|]. split; [exact Hcalls|].
  split; [|split; assumption].
  eapply Forall2_weaken; [|exact Hq].
  intros u c [Hasks Htitle]. unfold titleOf, getRuntimeConfig in Htitle.
  split; [exact Hasks|]. repeat split.
  - intros -> Hin. apply Array_includes_In in Hin.
    simpl in Htitle. rewrite Hin in Htitle. exact Htitle.
  - intros -> Hnin. simpl in Htitle.
    destruct (Array_includes u (sonarr config)) eqn:E; [|exact Htitle].
    apply Array_includes_In in E. contradiction.
  - intros Hne.
    destruct (MediaType_eqb mediaType OTHER) eqn:E; [|exact Htitle].
    apply MediaType_eqb_eq in E. contradiction.
Qed.

(** C10. [scanAllArrsForMedia] asks the relevant instances one after the
    other until a call ends the scan, and the title of each call starts
    from searchee.name: when the media type is OTHER it is the name with the
    extension stripped, the release group, the resolution and the
    repack/proper token removed and the separators cleansed (followed, for a
    Sonarr instance, by " S00E00"); for every other media type it is
    searchee.name itself. *)
Theorem scanAllArrsForMedia_title searchee mediaType (sys : Sys P) :
  let instances := getRelevantArrInstances config mediaType in
  forallb (validInstance P) instances = true ->
  exists res sys' newc,
    scanAllArrsForMedia P config searchee mediaType sys = (res, sys') /\
    calls sys' = (calls sys ++ newc)%list /\
    Forall
      (fun c =>
         (mediaType = OTHER ->
          let cleaned :=
            cleanseSeparators P
              (replace P
                 (replace P
                    (replace P (stripExtension P (name searchee))
                             (RELEASE_GROUP_REGEX P) "")
                    (RESOLUTION_REGEX P) "")
                 (REPACK_PROPER_REGEX P) "") in
          titleSent c = Some cleaned \/
          titleSent c = Some (cleaned ++ " S00E00")) /\
         (mediaType <> OTHER -> titleSent c = Some (name searchee)))
      newc /\
    Forall2 (fun uArrL c => asks P uArrL "/api/v3/parse" c)
            (firstn (length newc) instances) newc /\
    Forall (fun c => ~ ends P c) (removelast newc) /\
    (length newc = length instances \/
     exists earlier c, newc = (earlier ++ [c])%list /\ ends P c).
Proof.
  intros instances Hvalid.
  destruct (scanAllArrsForMedia_until searchee mediaType sys Hvalid)
    as (res & sys' & newc & Hrun & Hcalls & Hq & Hrm & Hlow).
  exists res, sys', newc. split; [exact Hrun|]. split; [exact Hcalls|].
  split; [|split; [|split; assumption]].
  - eapply Forall2_right; [|exact Hq].
    intros u c [_ Htitle]. unfold titleOf in Htitle. split.
    + intros ->. simpl in Htitle. fold (cleanTitle P searchee).
      destruct (Array_includes u (sonarr (getRuntimeConfig config))); auto.
    + intros Hne.
      destruct (MediaType_eqb mediaType OTHER) eqn:E; [|exact Htitle].
      apply MediaType_eqb_eq in E. contradiction.
  - eapply Forall2_weaken; [|exact Hq]. intros u c [Hasks _]. exact Hasks.
Qed.

(** Every value of the declared union has a movie or a series. *)
Lemma isParsedMedia_has_ids parsedMedia :
  isParsedMedia parsedMedia = true ->
  movie parsedMedia <> None \/ series parsedMedia <> None.
Proof.
  unfold isParsedMedia.
  destruct (movie parsedMedia), (series parsedMedia); intros H;
    try discriminate; [left | right]; discriminate.
Qed.

(** C4. [getRelevantArrIds] reads the movie ID-search capabilities and the
    movie ids when parsedMedia.movie is there, and the TV capabilities and
    the series ids otherwise; each of tvdbid, tmdbid and imdbid is the
    resolved id when the flag of that capability set is true and undefined
    otherwise.  Every value of the union ParsedMedia has a movie or a
    series. *)
Theorem getRelevantArrIds_caps caps parsedMedia :
  movie parsedMedia <> None \/ series parsedMedia <> None ->
  exists idSearchCaps ids,
    match movie parsedMedia with
    | Some m => idSearchCaps = movieIdSearch caps /\ ids = m
    | None => idSearchCaps = tvIdSearch caps /\ series parsedMedia = Some ids
    end /\
    getRelevantArrIds caps parsedMedia =
    Returns {| tvdbid := if capTvdbId idSearchCaps then tvdbId ids else None;
               tmdbid := if capTmdbId idSearchCaps then tmdbId ids else None;
               imdbid := if capImdbId idSearchCaps then imdbId ids else None |}.
Proof.
  intros Hsome. unfold getRelevantArrIds.
  destruct (movie parsedMedia) as [m|].
  - exists (movieIdSearch caps), m. split; [split; reflexivity|].
    unfold pick.
    destruct (capTvdbId _), (capTmdbId _), (capImdbId _); reflexivity.
  - destruct (series parsedMedia) as [s|].
    + exists (tvIdSearch caps), s. split; [split; reflexivity|].
      unfold pick.
      destruct (capTvdbId _), (capTmdbId _), (capImdbId _); reflexivity.
    + destruct Hsome as [H | H]; contradiction.
Qed.

(** The request of [makeArrApiCall]: a GET under the Arr URL with its
    apikey as X-Api-Key, the parameters set in the query string and the
    30-second signal. *)
Lemma makeArrApiCall_request {T : Type} (json : string -> option T)
    uArrL resourcePath key value (sys : Sys P) :
  validInstance P uArrL = true ->
  exists c,
    calls (snd (makeArrApiCall P json uArrL resourcePath [(key, value)] sys))
    = (calls sys ++ [c])%list /\
    asks P uArrL resourcePath c /\
    searchParams_get key (url (request c)) = Some value.
Proof.
  unfold validInstance. intros Hvalid.
  destruct (URL_parse P (sanitizeUrl P uArrL)) as [base|] eqn:Hbase; [|discriminate].
  rewrite (makeArrApiCall_run json uArrL resourcePath _ sys base Hbase).
  eexists. split; [reflexivity|]. split.
  - apply requestFor_asks. exact Hbase.
  - simpl. apply params_get_set.
Qed.

(** When the network takes 30 seconds or more, [makeArrApiCall] returns the
    reason of the signal. *)
Lemma makeArrApiCall_deadline {T : Type} (json : string -> option T)
    uArrL resourcePath params (sys : Sys P) base :
  URL_parse P (sanitizeUrl P uArrL) = Some base ->
  (30000 <= latency (fst (network P (requestFor P base uArrL resourcePath params)
                                  (world sys))))%N ->
  fst (makeArrApiCall P json uArrL resourcePath params sys)
  = Returns (Err timeoutReason).
Proof.
  intros Hbase Hslow.
  rewrite (makeArrApiCall_run json uArrL resourcePath params sys base Hbase).
  simpl. unfold settle, ms_30_seconds.
  apply N.leb_le in Hslow. rewrite Hslow. reflexivity.
Qed.

(** A fetch rejected with an error named AbortError is what
    [makeArrApiCall] reports as a connection timeout. *)
Lemma makeArrApiCall_abort {T : Type} (json : string -> option T)
    uArrL resourcePath params (sys : Sys P) base message cause :
  URL_parse P (sanitizeUrl P uArrL) = Some base ->
  settle ms_30_seconds
    (fst (network P (requestFor P base uArrL resourcePath params) (world sys)))
  = Rejected (mkError "AbortError" message cause) ->
  fst (makeArrApiCall P json uArrL resourcePath params sys)
  = Returns (Err (Error "connection timeout")).
Proof.
  intros Hbase Hout.
  rewrite (makeArrApiCall_run json uArrL resourcePath params sys base Hbase).
  simpl. rewrite Hout. reflexivity.
Qed.

(** The ping of [checkArrIsActive]: one GET of /api; it returns when the
    answer has a truthy [current]; it throws a CrossSeedError when the ping
    failed or was answered without one; and it lets the error of the body
    through when the body of the answer could not be read. *)
Lemma checkArrIsActive_spec uArrL arrInstance (sys : Sys P) :
  validInstance P uArrL = true ->
  exists res sys' c,
    checkArrIsActive P uArrL arrInstance sys = (res, sys') /\
    calls sys' = (calls sys ++ [c])%list /\
    logs sys' = logs sys /\
    asks P uArrL "/api" c /\
    (pingOk P c = true /\ bodyLost c = None /\ res = Returns tt \/
     pingOk P c = false /\ bodyLost c = None /\
     (exists msg cause, res = Throws (CrossSeedError msg cause)) \/
     pingOk P c = false /\
     exists streamError, bodyLost c = Some streamError /\
                         res = Throws (Raised streamError)).
Proof.
  unfold validInstance. intros Hvalid.
  destruct (URL_parse P (sanitizeUrl P uArrL)) as [base|] eqn:Hbase; [|discriminate].
  unfold checkArrIsActive, bind.
  rewrite (makeArrApiCall_run (json_ArrPing P) uArrL "/api" [] sys base Hbase).
  set (req := requestFor P base uArrL "/api" []).
  set (out := settle ms_30_seconds (fst (network P req (world sys)))).
  set (c := {| request := req; outcome := out |}).
  pose proof (resultFor_cases (json_ArrPing P) c) as Hback.
  change (outcome c) with out in Hback.
  assert (Hasks : asks P uArrL "/api" c) by (apply requestFor_asks; exact Hbase).
  destruct (resultFor (json_ArrPing P) out) as [[[ping|] | error] | exn].
  - destruct Hback as [Hback Hlost].
    destruct (Js.truthyProperty (current ping)) eqn:Hcur; cbn [negb];
      (eexists _, _, c; split; [reflexivity|]; split; [reflexivity|];
       split; [reflexivity|]; split; [exact Hasks|];
       unfold pingOk; rewrite Hback, Hcur).
    + left. auto.
    + right. left. eauto.
  - destruct Hback as [Hback Hlost]. cbn [Js.truthyProperty negb].
    eexists _, _, c. split; [reflexivity|]. split; [reflexivity|].
    split; [reflexivity|]. split; [exact Hasks|]. unfold pingOk. rewrite Hback.
    right. left. eauto.
  - destruct Hback as [Hback Hlost].
    eexists _, _, c. split; [reflexivity|]. split; [reflexivity|].
    split; [reflexivity|]. split; [exact Hasks|]. unfold pingOk. rewrite Hback.
    right. left. eauto.
  - destruct Hback as (Hback & streamError & Hlost & ->).
    eexists _, _, c. split; [reflexivity|]. split; [reflexivity|].
    split; [reflexivity|]. split; [exact Hasks|]. unfold pingOk. rewrite Hback.
    right. right. eauto.
Qed.

End Facts.

(** ** The theorems on the small platform *)

Example scan_other_run :
  fst (scanAllArrsForMedia Toy.platform Toy.config Toy.searchee OTHER Toy.start)
  = Returns (Ok Toy.seriesJson).
Proof. vm_compute. reflexivity. Qed.

Example scan_other_titles :
  map (titleSent)
      (calls (snd (scanAllArrsForMedia Toy.platform Toy.config Toy.searchee OTHER Toy.start)))
  = [Some "Show S00E00"; Some "Show S00E00"].
Proof. vm_compute. reflexivity. Qed.

Example scan_movie_run :
  fst (scanAllArrsForMedia Toy.platform Toy.config Toy.searchee MOVIE Toy.start)
  = Returns (Ok Toy.movieJson).
Proof. vm_compute. reflexivity. Qed.

Example scan_movie_log :
  map logged
      (logs (snd (scanAllArrsForMedia Toy.platform Toy.config Toy.searchee MOVIE Toy.start)))
  = ["Found media for Show.S01.1080p-GRP.mkv -> IMDB=tt0133093 TMDB=603"].
Proof. vm_compute. reflexivity. Qed.

Example scan_unlisted_run :
  scanAllArrsForMedia Toy.platform Toy.config Toy.searchee (UNLISTED "audio") Toy.start
  = (Returns (Err false), Toy.start).
Proof. vm_compute. reflexivity. Qed.

Example validate_run :
  fst (validateUArrLs Toy.platform Toy.config Toy.start)
  = Throws (CrossSeedError
              "Failed to establish a connection to Sonarr URL: http://empty:8989/?apikey=none"
              None).
Proof. vm_compute. reflexivity. Qed.

Example not_found_run :
  fst (makeArrApiCall Toy.platform Toy.json_ParsedMedia
         "http://other/?apikey=1" "/api/v3/parse" [("title", "x")] Toy.start)
  = Returns (Err (Error "404 Not Found first 1000 characters: <html>nothing here</html>")).
Proof. vm_compute. reflexivity. Qed.

Lemma scanAllArrsForMedia_S00E00_witness :
  let config := {| sonarr := [Toy.emptyUrl]; radarr := [Toy.radarrUrl] |} in
  forallb (validInstance Toy.platform) (getRelevantArrInstances config OTHER) = true /\
  exists res sys' newc,
    scanAllArrsForMedia Toy.platform config Toy.searchee OTHER Toy.start
    = (res, sys') /\
    calls sys' = (calls Toy.start ++ newc)%list /\
    Forall2
      (fun uArrL c =>
         asks Toy.platform uArrL "/api/v3/parse" c /\
         (OTHER = OTHER -> In uArrL (sonarr config) ->
          titleSent c = Some (cleanTitle Toy.platform Toy.searchee ++ " S00E00")) /\
         (OTHER = OTHER -> ~ In uArrL (sonarr config) ->
          titleSent c = Some (cleanTitle Toy.platform Toy.searchee)) /\
         (OTHER <> OTHER -> titleSent c = Some (name Toy.searchee)))
      (firstn (length newc) (getRelevantArrInstances config OTHER)) newc /\
    map titleSent newc = [Some "Show S00E00"; Some "Show"] /\
    res = Returns (Ok Toy.movieJson).
Proof.
  intros config. split; [reflexivity|].
  destruct (scanAllArrsForMedia_S00E00 Toy.platform config Toy.searchee
              OTHER Toy.start eq_refl)
    as (res & sys' & newc & Hrun & Hcalls & Hq & _).
  exists res, sys', newc. split; [exact Hrun|]. split; [exact Hcalls|].
  split; [exact Hq|].
  assert (Hres : res = fst (scanAllArrsForMedia Toy.platform config Toy.searchee
                              OTHER Toy.start))
    by (rewrite Hrun; reflexivity).
  assert (Hnew : newc = calls (snd (scanAllArrsForMedia Toy.platform config
                                      Toy.searchee OTHER Toy.start)))
    by (rewrite Hrun; symmetry; exact Hcalls).
  split; [rewrite Hnew | rewrite Hres]; vm_compute; reflexivity.
Defined.

Lemma scanAllArrsForMedia_title_witness :
  forallb (validInstance Toy.platform) (getRelevantArrInstances Toy.config EPISODE) = true /\
  exists res sys' newc,
    scanAllArrsForMedia Toy.platform Toy.config Toy.searchee EPISODE Toy.start
    = (res, sys') /\
    calls sys' = (calls Toy.start ++ newc)%list /\
    Forall (fun c => EPISODE <> OTHER -> titleSent c = Some (name Toy.searchee)) newc /\
    map titleSent newc
    = [Some "Show.S01.1080p-GRP.mkv"; Some "Show.S01.1080p-GRP.mkv"] /\
    res = Returns (Ok Toy.seriesJson).
Proof.
  split; [reflexivity|].
  destruct (scanAllArrsForMedia_title Toy.platform Toy.config Toy.searchee
              EPISODE Toy.start eq_refl)
    as (res & sys' & newc & Hrun & Hcalls & Hall & _).
  exists res, sys', newc. split; [exact Hrun|]. split; [exact Hcalls|].
  split; [eapply List.Forall_impl; [|exact Hall]; intros c [_ H]; exact H|].
  assert (Hres : res = fst (scanAllArrsForMedia Toy.platform Toy.config Toy.searchee
                              EPISODE Toy.start))
    by (rewrite Hrun; reflexivity).
  assert (Hnew : newc = calls (snd (scanAllArrsForMedia Toy.platform Toy.config
                                      Toy.searchee EPISODE Toy.start)))
    by (rewrite Hrun; symmetry; exact Hcalls).
  split; [rewrite Hnew | rewrite Hres]; vm_compute; reflexivity.
Defined.

Lemma getRelevantArrIds_caps_witness :
  let caps :=
    {| movieIdSearch := {| capTvdbId := false; capTmdbId := true; capImdbId := true |};
       tvIdSearch := {| capTvdbId := true; capTmdbId := false; capImdbId := false |} |} in
  (movie Toy.movieAnswer <> None \/ series Toy.movieAnswer <> None) /\
  getRelevantArrIds caps Toy.movieAnswer
  = Returns {| tvdbid := None; tmdbid := Some "603"; imdbid := Some "tt0133093" |}.
Proof.
  intros caps.
  assert (H : movie Toy.movieAnswer <> None \/ series Toy.movieAnswer <> None)
    by (left; discriminate).
  split; [exact H|].
  destruct (getRelevantArrIds_caps caps Toy.movieAnswer H)
    as (idSearchCaps & ids & Hsel & Hres).
  simpl in Hsel. destruct Hsel as [-> ->]. exact Hres.
Defined.

(** C1. A Radarr instance that answers the parse lookup with a movie that
    has a title and none of the three external ids: [scanAllArrsForMedia]
    returns Ok with that response, the test of the loop being passed by the
    title. *)
Theorem scanAllArrsForMedia_movie_without_id :
  let config := {| sonarr := []; radarr := [Toy.titledUrl] |} in
  exists c sys',
    scanAllArrsForMedia Toy.platform config Toy.searchee MOVIE Toy.start
    = (Returns (Ok Toy.titledJson), sys') /\
    calls sys' = [c] /\
    asks Toy.platform Toy.titledUrl "/api/v3/parse" c /\
    mediaOf Toy.platform c = Some Toy.titledJson /\
    hasTruthy Toy.platform Toy.titledJson /\
    ~ hasTruthyId Toy.platform Toy.titledJson.
Proof.
  intros config. eexists. eexists. split; [vm_compute; reflexivity|].
  split; [reflexivity|]. split.
  { eexists. split; [vm_compute; reflexivity|]. repeat split. }
  split; [vm_compute; reflexivity|]. split.
  - exists (Js.JObject [("title", Js.JString "The Matrix")]), "title",
      (Js.JString "The Matrix").
    split; [left; split; [reflexivity | discriminate]|].
    split; [left; reflexivity | reflexivity].
  - intros (object & key & value & Hlook & Hin & Hkey & _).
    assert (Hobj : object = Js.JObject [("title", Js.JString "The Matrix")]).
    { destruct Hlook as [[Hm _] | [[Hm | Hm] _]];
        vm_compute in Hm; congruence. }
    subst object. destruct Hin as [Heq | []]. inversion Heq; subst key.
    destruct Hkey as [H | [H | [H | []]]]; discriminate H.
Qed.

(** C3. An instance that answers the parse lookup with the JSON value null,
    and an instance that answers 503 and closes the connection before the
    body is through: in both cases the lookup has failed without a truthy
    id, and [scanAllArrsForMedia] throws instead of returning Err(false). *)
Theorem scanAllArrsForMedia_lookup_failure_thrown :
  (exists c sys',
     scanAllArrsForMedia Toy.platform {| sonarr := [Toy.nullUrl]; radarr := [] |}
       Toy.searchee EPISODE Toy.start
     = (Throws (TypeError "Cannot read properties of null (reading 'movie')"), sys') /\
     calls sys' = [c] /\
     mediaOf Toy.platform c = Some Js.JNull /\
     ~ hasTruthy Toy.platform Js.JNull) /\
  (exists c sys',
     scanAllArrsForMedia Toy.platform {| sonarr := []; radarr := [Toy.resetUrl] |}
       Toy.searchee MOVIE Toy.start
     = (Throws (Raised Toy.terminated), sys') /\
     calls sys' = [c] /\
     mediaOf Toy.platform c = None /\
     bodyLost c = Some Toy.terminated).
Proof.
  split.
  - eexists. eexists. split; [vm_compute; reflexivity|].
    split; [reflexivity|]. split; [vm_compute; reflexivity|].
    intros (object & key & value & Hlook & _).
    destruct Hlook as [[Hm _] | (_ & Hs & _)]; discriminate.
  - eexists. eexists. split; [vm_compute; reflexivity|].
    split; [reflexivity|]. split; vm_compute; reflexivity.
Qed.

(** C5. A configured Sonarr URL with an apikey whose ping is answered 503,
    the connection being closed before the body is through: the ping has
    failed, and [validateUArrLs] throws the error of the body, which is no
    CrossSeedError. *)
Theorem validateUArrLs_ping_failure_thrown :
  let config := {| sonarr := [Toy.resetUrl]; radarr := [] |} in
  exists u c sys',
    newURLs Toy.platform (sonarr config) = Returns [u] /\
    searchParams_has "apikey" u = true /\
    validateUArrLs Toy.platform config Toy.start
    = (Throws (Raised Toy.terminated), sys') /\
    calls sys' = [c] /\
    asks Toy.platform (URL_href Toy.platform u) "/api" c /\
    pingOk Toy.platform c = false /\
    forall msg cause, Raised Toy.terminated <> CrossSeedError msg cause.
Proof.
  intros config. eexists. eexists. eexists.
  split; [vm_compute; reflexivity|]. split; [reflexivity|].
  split; [vm_compute; reflexivity|]. split; [reflexivity|]. split.
  { eexists. split; [vm_compute; reflexivity|]. repeat split. }
  split; [vm_compute; reflexivity | discriminate].
Qed.

(** C9. An instance that answers 503 and closes the connection before the
    body is through, and one that does so after the status 200:
    [makeArrApiCall] throws the error of the body instead of returning
    Err. *)
Theorem makeArrApiCall_body_failure_thrown :
  (exists c sys',
     makeArrApiCall Toy.platform Toy.json_ParsedMedia
       Toy.resetUrl "/api/v3/parse" [("title", "Show")] Toy.start
     = (Throws (Raised Toy.terminated), sys') /\
     calls sys' = [c] /\
     outcome c = Resolved {| status := 503; statusText := "Service Unavailable";
                             body := inr Toy.terminated |}) /\
  (exists c sys',
     makeArrApiCall Toy.platform Toy.json_ParsedMedia
       Toy.cutUrl "/api/v3/parse" [("title", "Show")] Toy.start
     = (Throws (Raised Toy.terminated), sys') /\
     calls sys' = [c] /\
     outcome c = Resolved {| status := 200; statusText := "OK";
                             body := inr Toy.terminated |}).
Proof.
  split; eexists; eexists; (split; [vm_compute; reflexivity|]);
    split; reflexivity.
Qed.

(** C6. The parse lookup sent to an instance that stays silent for 45
    seconds: the request is the GET of /api/v3/parse under the Arr URL with
    the apikey as X-Api-Key, the title as query parameter and the 30-second
    signal; when the signal fires the call returns Err, and the error is the
    TimeoutError of the signal, not the error "connection timeout". *)
Theorem makeArrApiCall_deadline_elapsed :
  exists c sys',
    makeArrApiCall Toy.platform Toy.json_ParsedMedia
      Toy.slowUrl "/api/v3/parse" [("title", "Show")] Toy.start
    = (Returns (Err (mkError "TimeoutError"
                       "The operation was aborted due to timeout" None)), sys') /\
    calls sys' = [c] /\
    asks Toy.platform Toy.slowUrl "/api/v3/parse" c /\
    titleSent c = Some "Show" /\
    (signal (request c) <= latency (fst (Toy.network (request c) 0%nat)))%N /\
    errMessage (mkError "TimeoutError" "The operation was aborted due to timeout" None)
    <> "connection timeout".
Proof.
  eexists. eexists. split; [vm_compute; reflexivity|].
  split; [reflexivity|]. split.
  - eexists. split; [vm_compute; reflexivity|]. repeat split.
  - split; [reflexivity|]. split; [vm_compute; discriminate | discriminate].
Qed.

End ArrSpec.

(** * Properties of the database handles *)

Module DbSpec.

Import Db.

Lemma apply_journal_mode stmt d d' :
  apply stmt d = Some d' -> journal_mode d' = journal_mode d.
Proof.
  destruct stmt; simpl; destruct (tables d !! table);
    try destruct (_ && _); intros H; inversion H; reflexivity.
Qed.

Lemma files_record e st : files (record e st) = files st.
Proof. reflexivity. Qed.

(** A statement through a private connection leaves every file as it is. *)
Lemma run_private_files knex slot stmt st :
  conn knex = Private slot -> files (run knex stmt st) = files st.
Proof.
  intros Hconn. unfold run. rewrite files_record, Hconn. simpl.
  destruct (privates st !! slot) as [d|]; [|reflexivity].
  destruct (apply stmt d); reflexivity.
Qed.

Lemma runAll_private_files knex slot stmts :
  conn knex = Private slot ->
  forall st, files (runAll knex stmts st) = files st.
Proof.
  intros Hconn. unfold runAll.
  induction stmts as [|stmt rest IH]; intros st; simpl; [reflexivity|].
  rewrite IH. apply (run_private_files knex slot); exact Hconn.
Qed.

(** A statement through a file connection keeps the journal mode of every
    file that is there. *)
Lemma run_file_journal knex file stmt st f d :
  conn knex = File file ->
  files st !! f = Some d ->
  exists d', files (run knex stmt st) !! f = Some d' /\
             journal_mode d' = journal_mode d.
Proof.
  intros Hconn Hf. unfold run. rewrite files_record, Hconn. simpl.
  destruct (apply stmt (default (fresh DELETE) (files st !! file))) as [d1|] eqn:Happ;
    [|eauto].
  simpl. destruct (decide (file = f)) as [->|Hne].
  - rewrite lookup_insert_eq. exists d1. split; [reflexivity|].
    rewrite Hf in Happ. simpl in Happ. eapply apply_journal_mode; eassumption.
  - rewrite lookup_insert_ne by exact Hne. eauto.
Qed.

Section Module.

Context (appDir : string) (join : string -> string -> string).


(** The two handles the module exports when the database is a file. *)
Lemma initialise_on_file (st : State) :
  filename appDir join <> ":memory:" -> filename appDir join <> "" ->
  let f := filename appDir join in
  let db_ :=
    {| configured := {| client := "better-sqlite3"; connection := f;
                        migrationSource := true; useNullAsDefault := true |};
       conn := File f |} in
  let memDB_ :=
    {| configured := {| client := "better-sqlite3"; connection := ":memory:";
                        migrationSource := false; useNullAsDefault := true |};
       conn := Private (length (privates st)) |} in
  let wal :=
    {| journal_mode := WAL;
       tables := tables (default (fresh DELETE) (files st !! f)) |} in
  initialise appDir join st =
  ({| db := db_; memDB := memDB_ |},
   run memDB_ (CreateTable "ensemble" ensembleColumns)
     (run memDB_ (CreateTable "data" dataColumns)
        {| files := <[f := wal]> (files st);
           privates := (privates st ++ [fresh MEMORY])%list;
           events := (events st ++
                      [Opened Sqlite (File f);
                       Pragma (File f) "journal_mode = WAL";
                       Closed (File f);
                       Opened Knex (File f);
                       Opened Knex (Private (length (privates st)))])%list |})).
Proof.
  intros Hmem Hempty.
  apply String.eqb_neq in Hmem, Hempty.
  unfold initialise, Sqlite_new, Knex_knex, open.
  remember (filename appDir join) as f eqn:Hf.
  cbn [connection]. rewrite Hmem, Hempty. cbn [orb].
  change (":memory:" =? ":memory:")%string with true. cbn [orb].
  unfold Sqlite_pragma.
  change ("journal_mode = WAL" =? "journal_mode = WAL")%string with true.
  cbn -[fresh run].
  rewrite !lookup_insert_eq. cbn -[fresh run].
  rewrite !insert_insert_eq.
  unfold record. cbn -[fresh run].
  rewrite <- !app_assoc. reflexivity.
Qed.

Lemma events_run knex stmt st :
  events (run knex stmt st) = (events st ++ [Ran (conn knex) stmt])%list.
Proof.
  unfold run, record. simpl.
  destruct (databaseAt (conn knex) st) as [d|]; [|reflexivity].
  destruct (apply stmt d); [|reflexivity].
  destruct (conn knex); reflexivity.
Qed.

Lemma journalOf_file exports f st d :
  conn (db exports) = File f ->
  files st !! f = Some d ->
  journalOf exports st = Some (journal_mode d).
Proof.
  intros Hconn Hf. unfold journalOf. rewrite Hconn. simpl. rewrite Hf. reflexivity.
Qed.

(** Accesses through the two handles keep the journal mode of the file. *)
Lemma accesses_journal exports f slot later :
  conn (db exports) = File f ->
  conn (memDB exports) = Private slot ->
  forall st d,
    files st !! f = Some d ->
    exists d', files (accesses exports later st) !! f = Some d' /\
               journal_mode d' = journal_mode d.
Proof.
  intros Hdb Hmem. unfold accesses.
  induction later as [|a rest IH]; intros st d Hf; cbn [fold_left]; [eauto|].
  assert (Hstep : exists d1, files (access exports a st) !! f = Some d1 /\
                             journal_mode d1 = journal_mode d).
  { destruct a as [stmt | stmt]; cbn [access].
    - eapply run_file_journal; eassumption.
    - rewrite (run_private_files _ slot) by exact Hmem. eauto. }
  destruct Hstep as (d1 & Hf1 & Hj1).
  destruct (IH _ _ Hf1) as (d' & Hf' & Hj').
  exists d'. split; [exact Hf' | congruence].
Qed.

(** C7. At initialisation the persistent store is the one database file
    cross-seed.db under the application directory; a raw handle sets its
    journal_mode to WAL and is closed before the Knex connection to that
    file is made, so that the file is in WAL mode afterwards and every later
    access through the exported handles finds it in WAL mode. *)
Theorem initialise_journal_mode (st : State) :
  filename appDir join <> ":memory:" -> filename appDir join <> "" ->
  let f := filename appDir join in
  let exports := fst (initialise appDir join st) in
  let st' := snd (initialise appDir join st) in
  f = join appDir "cross-seed.db" /\
  connection (configured (db exports)) = f /\
  conn (db exports) = File f /\
  (exists slot,
     events st' =
     (events st ++
      [Opened Sqlite (File f);
       Pragma (File f) "journal_mode = WAL";
       Closed (File f);
       Opened Knex (File f);
       Opened Knex (Private slot);
       Ran (Private slot) (CreateTable "data" dataColumns);
       Ran (Private slot) (CreateTable "ensemble" ensembleColumns)])%list) /\
  (exists d, files st' !! f = Some d /\ journal_mode d = WAL) /\
  forall later, journalOf exports (accesses exports later st') = Some WAL.
Proof.
  intros Hmem Hempty f exports st'.
  pose proof (initialise_on_file st Hmem Hempty) as Hinit. cbv zeta in Hinit.
  fold f in Hinit.
  subst exports st'. rewrite Hinit. cbn [fst snd db memDB conn configured connection].
  split; [reflexivity|]. split; [reflexivity|]. split; [reflexivity|].
  set (memDB_ := {| configured := _; conn := Private (length (privates st)) |}).
  set (st4 := {| files := _; privates := _; events := _ |}).
  assert (Hfile : exists d,
             files (run memDB_ (CreateTable "ensemble" ensembleColumns)
                      (run memDB_ (CreateTable "data" dataColumns) st4)) !! f = Some d /\
             journal_mode d = WAL).
  { rewrite !(run_private_files _ (length (privates st))) by reflexivity.
    subst st4. cbn [files]. rewrite lookup_insert_eq. eauto. }
  split.
  { exists (length (privates st)). rewrite !events_run. subst st4. cbn [events conn memDB_].
    subst memDB_. cbn [conn]. rewrite <- !app_assoc. reflexivity. }
  split; [exact Hfile|].
  intros later. destruct Hfile as (d & Hd & Hwal).
  set (exports := {| db := _; memDB := memDB_ |}).
  destruct (accesses_journal exports f (length (privates st)) later
              eq_refl eq_refl _ d Hd) as (d' & Hd' & Hj').
  rewrite (journalOf_file exports f _ d' eq_refl Hd'). congruence.
Qed.

Lemma tablesOf_record e st f : tablesOf f (record e st) = tablesOf f st.
Proof. reflexivity. Qed.

(** Storing a database with the tables the file has keeps the tables of
    every file. *)
Lemma tablesOf_store file d st f :
  tables d = tables (default (fresh DELETE) (files st !! file)) ->
  tablesOf f (store (File file) d st) = tablesOf f st.
Proof.
  intros Hd. unfold tablesOf. simpl.
  destruct (decide (file = f)) as [->|Hne].
  - rewrite lookup_insert_eq, Hd. destruct (files st !! f); reflexivity.
  - rewrite lookup_insert_ne by exact Hne. reflexivity.
Qed.

Lemma tablesOf_open by_ name st f :
  tablesOf f (snd (open by_ name st)) = tablesOf f st.
Proof.
  unfold open.
  destruct (String.eqb name ":memory:" || String.eqb name ""); cbn [snd].
  - reflexivity.
  - rewrite tablesOf_record. apply tablesOf_store. reflexivity.
Qed.

Lemma tablesOf_pragma handle source st f :
  tablesOf f (Sqlite_pragma handle source st) = tablesOf f st.
Proof.
  unfold Sqlite_pragma. rewrite tablesOf_record.
  destruct (String.eqb source "journal_mode = WAL"); [|reflexivity].
  destruct handle as [file | slot];
    [|destruct (databaseAt (Private slot) st); reflexivity].
  cbn [databaseAt]. apply tablesOf_store. reflexivity.
Qed.

Lemma tablesOf_Knex_knex config st f :
  tablesOf f (snd (Knex_knex config st)) = tablesOf f st.
Proof.
  unfold Knex_knex.
  pose proof (tablesOf_open Knex (connection config) st f) as H.
  destruct (open Knex (connection config) st) as [c st']. exact H.
Qed.

(** A ":memory:" connection is a database of its own, the next slot. *)
Lemma Knex_knex_memory config st :
  connection config = ":memory:" ->
  Knex_knex config st =
  ({| configured := config; conn := Private (length (privates st)) |},
   record (Opened Knex (Private (length (privates st))))
     {| files := files st;
        privates := (privates st ++ [fresh MEMORY])%list;
        events := events st |}).
Proof. intros Hconn. unfold Knex_knex, open. rewrite Hconn. reflexivity. Qed.

(** C8. The tables data and ensemble are created through memDB, whose
    connection is ":memory:": they are the tables of a private database, the
    initialisation creates no table in any database file, and no statement
    run through memDB changes a database file. *)
Theorem memDB_is_private (st : State) :
  let exports := fst (initialise appDir join st) in
  let st' := snd (initialise appDir join st) in
  connection (configured (memDB exports)) = ":memory:" /\
  (exists slot mem,
     conn (memDB exports) = Private slot /\
     privates st' !! slot = Some mem /\
     tables mem =
     <["ensemble" := {| columns := ensembleColumns; rows := [] |}]>
       (<["data" := {| columns := dataColumns; rows := [] |}]> ∅)) /\
  (forall f, tablesOf f st' = tablesOf f st) /\
  (forall stmts st2, files (runAll (memDB exports) stmts st2) = files st2).
Proof.
  intros exports st'. subst exports st'. unfold initialise.
  destruct (Sqlite_new (filename appDir join) st) as [raw st1] eqn:E1.
  set (st3 := Sqlite_close raw (Sqlite_pragma raw "journal_mode = WAL" st1)).
  destruct (Knex_knex {| client := "better-sqlite3";
                         connection := filename appDir join;
                         migrationSource := true;
                         useNullAsDefault := true |} st3) as [db_ st4] eqn:E4.
  rewrite Knex_knex_memory by reflexivity.
  set (slot := length (privates st4)).
  set (memDB_ := {| configured := _; conn := Private slot |}).
  set (st5 := record _ _).
  cbn [fst snd memDB configured connection conn].
  split; [reflexivity|].
  assert (Htables : forall f, tablesOf f st5 = tablesOf f st).
  { intros f. subst st5. rewrite tablesOf_record.
    change (tablesOf f st4 = tablesOf f st).
    match type of E4 with
    | Knex_knex ?cfg _ = _ =>
        replace st4 with (snd (Knex_knex cfg st3)) by (rewrite E4; reflexivity)
    end.
    rewrite tablesOf_Knex_knex. subst st3. unfold Sqlite_close.
    rewrite tablesOf_record, tablesOf_pragma.
    replace st1 with (snd (Sqlite_new (filename appDir join) st)) by (rewrite E1; reflexivity).
    apply tablesOf_open. }
  split; [|split].
  - exists slot. eexists. split; [reflexivity|].
    assert (H5 : privates st5 !! slot = Some (fresh MEMORY)).
    { subst st5 slot. cbn [record privates]. apply list_lookup_middle. reflexivity. }
    unfold run at 2. cbn [conn memDB_ databaseAt]. rewrite H5. cbn [apply tables fresh].
    rewrite lookup_empty. cbn [store record].
    unfold run. cbn [conn memDB_ databaseAt privates record].
    assert (Hlt : slot < length (privates st5)).
    { apply lookup_lt_is_Some. rewrite H5. eauto. }
    rewrite list_lookup_insert_eq by exact Hlt.
    cbn [apply tables journal_mode].
    rewrite lookup_insert_ne by discriminate. rewrite lookup_empty.
    cbn [store privates].
    cbn [record privates].
    rewrite list_lookup_insert_eq by (rewrite length_insert; exact Hlt).
    split; reflexivity.
  - intros f. unfold tablesOf.
    rewrite !(run_private_files _ slot) by reflexivity.
    apply Htables.
  - intros stmts st2. apply (runAll_private_files _ slot). reflexivity.
Qed.

End Module.

(** A row whose primary key is taken is rejected, and the table keeps the
    row it has. *)
Example insert_taken_key :
  let exports := fst (initialise Toy.appDir Toy.join Toy.disk) in
  let st := snd (initialise Toy.appDir Toy.join Toy.disk) in
  let once := run (memDB exports) (Insert "data" [("path", "/a"); ("title", "A")]) st in
  let twice := run (memDB exports) (Insert "data" [("path", "/a"); ("title", "B")]) once in
  (rows <$> ((tables <$> databaseAt (conn (memDB exports)) twice) ≫= (.!! "data")))
  = Some [[("path", "/a"); ("title", "A")]].
Proof. vm_compute. reflexivity. Qed.

Example initialise_run :
  journalOf (fst (initialise Toy.appDir Toy.join Toy.disk))
            (snd (initialise Toy.appDir Toy.join Toy.disk))
  = Some WAL.
Proof. vm_compute. reflexivity. Qed.

Lemma initialise_journal_mode_witness :
  filename Toy.appDir Toy.join <> ":memory:" /\
  filename Toy.appDir Toy.join <> "" /\
  conn (db (fst (initialise Toy.appDir Toy.join Toy.disk)))
  = File "/config/cross-seed.db" /\
  forall later,
    journalOf (fst (initialise Toy.appDir Toy.join Toy.disk))
      (accesses (fst (initialise Toy.appDir Toy.join Toy.disk)) later
                (snd (initialise Toy.appDir Toy.join Toy.disk)))
    = Some WAL.
Proof.
  assert (Hmem : filename Toy.appDir Toy.join <> ":memory:") by discriminate.
  assert (Hempty : filename Toy.appDir Toy.join <> "") by discriminate.
  split; [exact Hmem|]. split; [exact Hempty|].
  destruct (initialise_journal_mode Toy.appDir Toy.join Toy.disk Hmem Hempty)
    as (_ & _ & Hconn & _ & _ & Hlater).
  split; [exact Hconn | exact Hlater].
Defined.

End DbSpec.
(** * Further properties of the Arr gateway *)

Module ArrMore.

Import Arr.

Section Facts.

Context (P : Platform) (config : RuntimeConfig).

(** The error the scan carries out of its loop: the initial one when no
    call failed, and otherwise the error of the call that failed last. *)
Lemma lastError_split cs :
  forall initial,
    Forall (fun c => failure P c = None) cs /\ lastError P initial cs = initial
    \/
    exists earlier c later,
      cs = (earlier ++ c :: later)%list /\
      failure P c = Some (lastError P initial cs) /\
      Forall (fun c' => failure P c' = None) later.
Proof.
  induction cs as [|c rest IH]; intros initial.
  - left. split; [constructor | reflexivity].
  - rewrite ArrSpec.lastError_cons.
    destruct (IH (match failure P c with Some e => e | None => initial end))
      as [[Hnone Hlast] | (earlier & c' & later & -> & Hfail & Hlater)].
    + rewrite Hlast. destruct (failure P c) as [e|] eqn:Hc.
      * right. exists [], c, rest. split; [reflexivity|]. split; assumption.
      * left. split; [constructor; assumption | reflexivity].
    + right. exists (c :: earlier), c', later.
      split; [reflexivity|]. split; assumption.
Qed.


(** X1. What [scanAllArrsForMedia] writes to the log: one verbose line when
    it returns Ok, labelled RADARR when the movie of the response is truthy
    and SONARR otherwise; two verbose lines labelled ARRS when it returns
    Err after asking instances; nothing, the state being left as it was,
    when no instance is relevant; and nothing when it throws.  It writes no
    debug line. *)
Theorem scanAllArrsForMedia_logging searchee mediaType (sys : Sys P) :
  exists res sys',
    scanAllArrsForMedia P config searchee mediaType sys = (res, sys') /\
    match res with
    | Returns (Ok response) =>
        exists entry,
          logs sys' = (logs sys ++ [entry])%list /\
          level entry = verbose /\
          label entry = Some (if Js.toBoolean (Js.prop "movie" response)
                              then RADARR else SONARR)
    | Returns (Err _) =>
        getRelevantArrInstances config mediaType = [] /\ sys' = sys \/
        getRelevantArrInstances config mediaType <> [] /\
        exists failed hint,
          logs sys' = (logs sys ++ [failed; hint])%list /\
          level failed = verbose /\ label failed = Some ARRS /\
          level hint = verbose /\ label hint = Some ARRS /\
          logged hint = "Make sure the item is added to an Arr instance."
    | Throws _ => logs sys' = logs sys
    end.
Proof.
  destruct (ArrSpec.scanAllArrsForMedia_trace P config searchee mediaType sys)
    as (res & sys' & newc & Hrun & _ & _ & _ & Hout).
  exists res, sys'. split; [exact Hrun|].
  destruct res as [[response | b] | exn].
  - destruct Hout as (earlier & c & sent & _ & _ & _ & _ & _ & Hlogs).
    exists (foundEntry P response sent). repeat split. exact Hlogs.
  - destruct Hout as (_ & _ & _ & [[Hnil Hsame] | [Hsome Hlogs]]); [left; auto|].
    right. split; [exact Hsome|].
    eexists _, _. split; [exact Hlogs|]. repeat split.
  - destruct Hout as (Hlogs & _). exact Hlogs.
Qed.

(** X2. When [scanAllArrsForMedia] gives up after asking instances, the
    first line it logs names searchee.name (not the title it sent) and
    carries the message of one error: the error of the call that failed
    last, whatever the calls after it were answered; and, when no call
    failed, every instance having answered without a truthy property, the
    initial "No ids found for <title> [<media type>]". *)
Theorem scanAllArrsForMedia_reports_last_error searchee mediaType (sys : Sys P) :
  exists res sys' newc,
    scanAllArrsForMedia P config searchee mediaType sys = (res, sys') /\
    calls sys' = (calls sys ++ newc)%list /\
    forall b,
      res = Returns (Err b) ->
      getRelevantArrInstances config mediaType <> [] ->
      exists reported hint,
        logs sys' =
        (logs sys ++
         [ {| level := verbose; label := Some ARRS;
              logged := "Lookup failed for " ++ chalk P yellow (name searchee)
                        ++ " - " ++ chalk P red (errMessage reported) |};
           hint ])%list /\
        (Forall (fun c => failure P c = None) newc /\
         reported =
         Error ("No ids found for " ++ titleOf P searchee mediaType ++ " ["
                ++ MediaType_value P mediaType ++ "]")
         \/
         exists earlier c later,
           newc = (earlier ++ c :: later)%list /\
           failure P c = Some reported /\
           Forall (fun c' => failure P c' = None) later).
Proof.
  destruct (ArrSpec.scanAllArrsForMedia_trace P config searchee mediaType sys)
    as (res & sys' & newc & Hrun & Hcalls & _ & _ & Hout).
  exists res, sys', newc. split; [exact Hrun|]. split; [exact Hcalls|].
  intros b -> Hsome.
  destruct Hout as (_ & _ & _ & [[Hnil _] | [_ Hlogs]]); [contradiction|].
  eexists _, _. split; [exact Hlogs|].
  destruct (lastError_split newc (noIdsFound P searchee mediaType))
    as [[Hnone Hlast] | Hsplit].
  - left. split; [exact Hnone | exact Hlast].
  - right. exact Hsplit.
Qed.



(** X5. On a response with neither a movie nor a series,
    [getRelevantArrIds] returns three undefined ids when the TV capabilities
    support no id, and throws a TypeError as soon as they support one. *)
Theorem getRelevantArrIds_without_ids caps parsedMedia :
  movie parsedMedia = None ->
  series parsedMedia = None ->
  let supported :=
    capTvdbId (tvIdSearch caps) || capTmdbId (tvIdSearch caps)
    || capImdbId (tvIdSearch caps) in
  (supported = false ->
   getRelevantArrIds caps parsedMedia
   = Returns {| tvdbid := None; tmdbid := None; imdbid := None |}) /\
  (supported = true ->
   exists message, getRelevantArrIds caps parsedMedia = Throws (TypeError message)).
Proof.
  intros Hm Hs supported. subst supported.
  unfold getRelevantArrIds, pick. rewrite Hm, Hs.
  destruct (capTvdbId (tvIdSearch caps)), (capTmdbId (tvIdSearch caps)),
    (capImdbId (tvIdSearch caps)); simpl; split; intros H;
    try discriminate; eauto.
Qed.




Lemma length_append (a b : string) :
  String.length (a ++ b) = String.length a + String.length b.
Proof. induction a as [|c a IH]; simpl; [reflexivity | rewrite IH; reflexivity]. Qed.

Lemma substring0_whole n text :
  String.length text <= n -> Js.substring0 n text = text.
Proof.
  unfold Js.substring0. revert text.
  induction n as [|n IH]; intros [|c rest]; simpl; intros Hlen;
    try reflexivity; try lia.
  rewrite IH by lia. reflexivity.
Qed.

Lemma substring0_full n text :
  n <= String.length text -> String.length (Js.substring0 n text) = n.
Proof.
  unfold Js.substring0. revert text.
  induction n as [|n IH]; intros [|c rest]; simpl; intros Hlen;
    try reflexivity; try lia.
  rewrite IH by lia. reflexivity.
Qed.

Lemma substring0_empty n text :
  Js.substring0 (S n) text = "" <-> text = "".
Proof.
  unfold Js.substring0. destruct text as [|c rest]; simpl.
  - tauto.
  - split; discriminate.
Qed.

(** X7. The sample [getBodySampleMessage] makes of a body: empty exactly
    for the empty body; the announcement followed by the whole body when the
    body has at most 1000 characters; of 1023 characters when the body has
    1000 or more; never longer. *)
Theorem getBodySampleMessage_cases text :
  (getBodySampleMessage text = "" <-> text = "") /\
  String.length (getBodySampleMessage text) <= 1023 /\
  (text <> "" -> String.length text <= 1000 ->
   getBodySampleMessage text = "first 1000 characters: " ++ text) /\
  (1000 <= String.length text ->
   String.length (getBodySampleMessage text) = 1023).
Proof.
  unfold getBodySampleMessage, Js.truthy.
  pose proof (ArrSpec.substring0_length 1000 text) as Hle.
  pose proof (substring0_empty 999 text) as Hempty.
  change (S 999) with 1000 in Hempty.
  destruct (String.eqb (Js.substring0 1000 text) "") eqn:E; cbn [negb].
  - apply String.eqb_eq in E. apply Hempty in E. subst text.
    split; [tauto|]. split; [simpl; lia|].
    split; [intros H; contradiction | simpl; lia].
  - apply String.eqb_neq in E.
    assert (Hne : text <> "") by (intros H; apply E, Hempty, H).
    split; [split; [discriminate | contradiction]|].
    split; [rewrite length_append; simpl String.length; lia|].
    split.
    + intros _ Hshort. rewrite substring0_whole by exact Hshort. reflexivity.
    + intros Hlong. rewrite length_append, substring0_full by exact Hlong.
      reflexivity.
Qed.

Lemma find_app {A} (f : A -> bool) l1 l2 :
  find f (l1 ++ l2) = match find f l1 with
                      | Some x => Some x
                      | None => find f l2
                      end.
Proof.
  induction l1 as [|a l1 IH]; simpl; [reflexivity|].
  destruct (f a); [reflexivity | exact IH].
Qed.

Lemma find_filter_other key key' (l : list (string * string)) :
  key' <> key ->
  find (fun kv => String.eqb (fst kv) key')
       (filter (fun kv => negb (String.eqb (fst kv) key)) l)
  = find (fun kv => String.eqb (fst kv) key') l.
Proof.
  intros Hne. induction l as [|[k v] rest IH]; [reflexivity|].
  rewrite filter_cons. cbn [fst].
  destruct (String.eqb_spec k key) as [->|Hk]; cbn [negb].
  - rewrite decide_False by (intros H; exact H).
    cbn [find fst].
    destruct (String.eqb_spec key key') as [Heq|_]; [congruence | exact IH].
  - rewrite decide_True by exact I.
    cbn [find fst]. destruct (String.eqb k key'); [reflexivity | exact IH].
Qed.

(** [set] leaves the parameters of other names as they are. *)
Lemma params_get_set_other key key' value o p l :
  key' <> key ->
  searchParams_get key'
    {| origin := o; pathname := p; searchParams := params_set key value l |}
  = searchParams_get key' {| origin := o; pathname := p; searchParams := l |}.
Proof.
  intros Hne. unfold searchParams_get. simpl.
  induction l as [|[k v] rest IH]; simpl.
  - destruct (String.eqb key key') eqn:E; [|reflexivity].
    apply String.eqb_eq in E. congruence.
  - destruct (String.eqb k key) eqn:E; simpl.
    + apply String.eqb_eq in E. subst k.
      destruct (String.eqb key key') eqn:E';
        [apply String.eqb_eq in E'; congruence|].
      rewrite find_filter_other by exact Hne. reflexivity.
    + destruct (String.eqb k key'); [reflexivity | exact IH].
Qed.

Lemma params_get_fold key o p params :
  forall l,
    searchParams_get key
      {| origin := o; pathname := p;
         searchParams :=
           fold_left (fun sp nv => params_set (fst nv) (snd nv) sp) params l |}
    = match find (fun nv => String.eqb (fst nv) key) (rev params) with
      | Some nv => Some (snd nv)
      | None => searchParams_get key {| origin := o; pathname := p; searchParams := l |}
      end.
Proof.
  induction params as [|[k v] rest IH]; intros l; simpl; [reflexivity|].
  rewrite IH, find_app. simpl.
  destruct (find (fun nv => String.eqb (fst nv) key) (rev rest)); [reflexivity|].
  destruct (String.eqb k key) eqn:E.
  - apply String.eqb_eq in E. subst k. apply ArrSpec.params_get_set.
  - apply String.eqb_neq in E. apply params_get_set_other. congruence.
Qed.

(** X8. The request of [makeArrApiCall], for any list of parameters: a GET
    under the Arr URL with the apikey header and the 30-second signal, in
    whose query string a name given in the list has the value of its last
    occurrence there, and every other name the value it has in the
    sanitized Arr URL. *)
Theorem makeArrApiCall_query {T : Type} (json : string -> option T)
    uArrL resourcePath params (sys : Sys P) :
  validInstance P uArrL = true ->
  exists base c,
    URL_parse P (sanitizeUrl P uArrL) = Some base /\
    calls (snd (makeArrApiCall P json uArrL resourcePath params sys))
    = (calls sys ++ [c])%list /\
    asks P uArrL resourcePath c /\
    forall key,
      searchParams_get key (url (request c)) =
      match find (fun nv => String.eqb (fst nv) key) (rev params) with
      | Some nv => Some (snd nv)
      | None => searchParams_get key base
      end.
Proof.
  intros Hvalid. destruct (ArrSpec.validInstance_base P uArrL Hvalid) as [base Hbase].
  exists base.
  rewrite (ArrSpec.makeArrApiCall_run P json uArrL resourcePath params sys base Hbase).
  eexists. split; [exact Hbase|]. split; [reflexivity|]. split.
  - apply ArrSpec.requestFor_asks. exact Hbase.
  - intros key. cbn [request url requestFor]. rewrite params_get_fold.
    destruct base; reflexivity.
Qed.

(** X15. On an instance that can be addressed [makeArrApiCall] makes one
    request, logs nothing, and completes by the outcome of its fetch.  A
    rejected fetch gives Err: "connection timeout" for an error named
    AbortError, the error itself otherwise.  A response whose body cannot be
    read to its end makes the function throw the error of the body,
    whatever the status.  A response with its body gives Err when the status
    is not 2xx, Err when the body is not JSON, and Ok with the JSON value
    otherwise; the two messages embed no more of the body than its first
    1000 characters. *)
Theorem makeArrApiCall_outcomes {T : Type} (json : string -> option T)
    uArrL resourcePath params (sys : Sys P) :
  validInstance P uArrL = true ->
  exists res sys' c,
    makeArrApiCall P json uArrL resourcePath params sys = (res, sys') /\
    calls sys' = (calls sys ++ [c])%list /\
    logs sys' = logs sys /\
    outcome c = settle ms_30_seconds (fst (network P (request c) (world sys))) /\
    match outcome c with
    | Rejected networkError =>
        res = Returns (Err (if String.eqb (errName networkError) "AbortError"
                            then Error "connection timeout"
                            else networkError))
    | Resolved response =>
        match body response with
        | inr streamError => res = Throws (Raised streamError)
        | inl text =>
            if Response_ok response then
              match json text with
              | Some responseBody => res = Returns (Ok responseBody)
              | None =>
                  exists sample,
                    res = Returns (Err (Error ("Arr response was non-JSON. "
                                               ++ sample))) /\
                    bodySample text sample
              end
            else
              exists sample,
                res = Returns (Err (Error (Js.ofNumber (status response) ++ " "
                                           ++ statusText response ++ " " ++ sample))) /\
                bodySample text sample
        end
    end.
Proof.
  intros Hvalid. destruct (ArrSpec.validInstance_base P uArrL Hvalid) as [base Hbase].
  rewrite (ArrSpec.makeArrApiCall_run P json uArrL resourcePath params sys base Hbase).
  set (req := requestFor P base uArrL resourcePath params).
  set (out := settle ms_30_seconds (fst (network P req (world sys)))).
  eexists (resultFor json out), _, {| request := req; outcome := out |}.
  split; [reflexivity|]. split; [reflexivity|]. split; [reflexivity|].
  split; [reflexivity|].
  cbn [outcome]. unfold resultFor.
  destruct out as [response | networkError].
  - destruct (body response) as [text | streamError]; [|reflexivity].
    destruct (Response_ok response).
    + destruct (json text); [reflexivity|].
      eexists. split; [reflexivity | apply ArrSpec.getBodySampleMessage_sample].
    + eexists. split; [reflexivity | apply ArrSpec.getBodySampleMessage_sample].
  - destruct (String.eqb (errName networkError) "AbortError"); reflexivity.
Qed.

Lemma newURLs_returns strs :
  forall urls,
    newURLs P strs = Returns urls ->
    Forall2 (fun str u => URL_parse P str = Some u) strs urls.
Proof.
  induction strs as [|str rest IH]; simpl; intros urls H.
  - inversion H. constructor.
  - destruct (URL_parse P str) as [u|] eqn:Hu; [|discriminate].
    destruct (newURLs P rest) as [us|exn]; [|discriminate].
    inversion H. constructor; [exact Hu | apply IH; reflexivity].
Qed.

Lemma newURLs_throws strs str :
  In str strs -> URL_parse P str = None ->
  newURLs P strs = Throws (TypeError "Invalid URL").
Proof.
  intros Hin Hbad. induction strs as [|s0 rest IH]; [destruct Hin|]. simpl.
  destruct (URL_parse P s0) as [u|] eqn:Hu; [|reflexivity].
  destruct Hin as [-> | Hin]; [congruence|].
  rewrite (IH Hin). reflexivity.
Qed.

(** The loop of [validateUArrLs] on any URLs. *)
Lemma validateEach_any arrInstance urls :
  forall (sys : Sys P),
    exists res sys' pings,
      validateEach P arrInstance urls sys = (res, sys') /\
      calls sys' = (calls sys ++ pings)%list /\
      logs sys' = logs sys /\
      Forall2 (fun u c => asks P (URL_href P u) "/api" c)
              (firstn (length pings) urls) pings /\
      forallb (searchParams_has "apikey") (firstn (length pings) urls) = true /\
      forallb (pingOk P) (removelast pings) = true /\
      (res = Returns tt ->
       length pings = length urls /\ forallb (pingOk P) pings = true).
Proof.
  induction urls as [|u rest IH]; intros sys.
  - exists (Returns tt), sys, []. simpl. rewrite app_nil_r.
    repeat split; try reflexivity. constructor.
  - cbn [validateEach].
    destruct (searchParams_has "apikey" u) eqn:Hkey; cbn [negb].
    + destruct (validInstance P (URL_href P u)) eqn:Hvalid.
      * destruct (ArrSpec.checkArrIsActive_spec P (URL_href P u) arrInstance sys Hvalid)
          as (r & sys1 & c & Hrun & Hcalls & Hlogs & Hasks & Hping).
        unfold bind at 1. rewrite Hrun.
        assert (Hstop : forall exn,
                   r = Throws exn ->
                   exists res sys' pings,
                     (Throws exn, sys1) = (res, sys') /\
                     calls sys' = (calls sys ++ pings)%list /\
                     logs sys' = logs sys /\
                     Forall2 (fun u c => asks P (URL_href P u) "/api" c)
                             (firstn (length pings) (u :: rest)) pings /\
                     forallb (searchParams_has "apikey")
                             (firstn (length pings) (u :: rest)) = true /\
                     forallb (pingOk P) (removelast pings) = true /\
                     (res = Returns tt ->
                      length pings = length (u :: rest) /\
                      forallb (pingOk P) pings = true)).
        { intros exn _. exists (Throws exn), sys1, [c].
          split; [reflexivity|]. split; [exact Hcalls|]. split; [exact Hlogs|].
          split; [simpl; constructor; [exact Hasks | constructor]|].
          split; [simpl; rewrite Hkey; reflexivity|].
          split; [reflexivity | discriminate]. }
        destruct Hping as [(Hok & _ & ->) | [(Hko & _ & msg & cause & ->)
                                            | (Hko & e & _ & ->)]];
          [|eapply Hstop; reflexivity | eapply Hstop; reflexivity].
        destruct (IH sys1)
          as (res & sys' & pings & Hloop & Hc & Hl & Hq & Hk & Hall & Hret).
        exists res, sys', (c :: pings). split; [exact Hloop|]. split.
        { rewrite Hc, Hcalls, <- app_assoc. reflexivity. }
        split; [congruence|].
        split; [simpl; constructor; assumption|].
        split; [simpl; rewrite Hkey, Hk; reflexivity|]. split.
        { destruct pings as [|c' pings']; [reflexivity|].
          change (removelast (c :: c' :: pings'))
            with (c :: removelast (c' :: pings')).
          simpl forallb. rewrite Hok. exact Hall. }
        intros Hres. destruct (Hret Hres) as [Hlen Hoks].
        split; [simpl; congruence | simpl; rewrite Hok, Hoks; reflexivity].
      * unfold bind at 1. unfold checkArrIsActive at 1. unfold bind at 1.
        rewrite ArrSpec.makeArrApiCall_invalid by exact Hvalid.
        eexists _, sys, []. rewrite app_nil_r.
        split; [reflexivity|]. split; [reflexivity|]. split; [reflexivity|].
        split; [constructor|]. split; [reflexivity|].
        split; [reflexivity | discriminate].
    + eexists _, sys, []. rewrite app_nil_r.
      split; [reflexivity|]. split; [reflexivity|]. split; [reflexivity|].
      split; [constructor|]. split; [reflexivity|].
      split; [reflexivity | discriminate].
Qed.

(** X9. When [validateUArrLs] returns, every configured string is a URL
    with an apikey parameter, each of them was pinged once, the Sonarr ones
    first and in the order of the configuration, every ping was answered
    with a truthy [current], and nothing was logged. *)
Theorem validateUArrLs_passed (sys sys' : Sys P) :
  validateUArrLs P config sys = (Returns tt, sys') ->
  exists sonarrUrls radarrUrls pings,
    Forall2 (fun str u => URL_parse P str = Some u) (sonarr config) sonarrUrls /\
    Forall2 (fun str u => URL_parse P str = Some u) (radarr config) radarrUrls /\
    forallb (searchParams_has "apikey") (sonarrUrls ++ radarrUrls) = true /\
    calls sys' = (calls sys ++ pings)%list /\
    Forall2 (fun u c => asks P (URL_href P u) "/api" c)
            (sonarrUrls ++ radarrUrls) pings /\
    forallb (pingOk P) pings = true /\
    logs sys' = logs sys.
Proof.
  unfold validateUArrLs, validateInstances, getRuntimeConfig. intros Hrun.
  destruct (newURLs P (sonarr config)) as [sonarrUrls|exn] eqn:Hs;
    [|discriminate Hrun].
  destruct (validateEach_any "Sonarr" sonarrUrls sys)
    as (r1 & sys1 & p1 & Hrun1 & Hc1 & Hl1 & Hq1 & Hk1 & _ & Hret1).
  unfold bind at 1 in Hrun. rewrite Hrun1 in Hrun.
  destruct r1 as [[]|exn]; [|discriminate Hrun].
  destruct (newURLs P (radarr config)) as [radarrUrls|exn] eqn:Hr;
    [|discriminate Hrun].
  destruct (validateEach_any "Radarr" radarrUrls sys1)
    as (r2 & sys2 & p2 & Hrun2 & Hc2 & Hl2 & Hq2 & Hk2 & _ & Hret2).
  rewrite Hrun2 in Hrun. inversion Hrun; subst r2 sys2.
  destruct (Hret1 eq_refl) as [Hlen1 Hok1].
  destruct (Hret2 eq_refl) as [Hlen2 Hok2].
  rewrite Hlen1, firstn_all in Hq1, Hk1.
  rewrite Hlen2, firstn_all in Hq2, Hk2.
  exists sonarrUrls, radarrUrls, (p1 ++ p2)%list.
  split; [apply newURLs_returns; exact Hs|].
  split; [apply newURLs_returns; exact Hr|].
  split; [rewrite forallb_app, Hk1, Hk2; reflexivity|].
  split; [rewrite Hc2, Hc1, <- app_assoc; reflexivity|].
  split; [apply Forall2_app; assumption|].
  split; [rewrite forallb_app, Hok1, Hok2; reflexivity | congruence].
Qed.

(** X10. A configured string that is no URL makes [validateUArrLs] throw the
    TypeError of the URL constructor.  In the Sonarr list it does so before
    any ping, whatever its place in the list, the state being left as it
    was; in the Radarr list it does so once the Sonarr instances have passed,
    and before any Radarr instance is pinged. *)
Theorem validateUArrLs_not_a_URL str (sys : Sys P) :
  URL_parse P str = None ->
  (In str (sonarr config) ->
   validateUArrLs P config sys = (Throws (TypeError "Invalid URL"), sys)) /\
  (In str (radarr config) ->
   forall sys1,
     validateUArrLs P {| sonarr := sonarr config; radarr := [] |} sys
     = (Returns tt, sys1) ->
     validateUArrLs P config sys = (Throws (TypeError "Invalid URL"), sys1)).
Proof.
  intros Hbad. unfold validateUArrLs, validateInstances, getRuntimeConfig. split.
  - intros Hin. rewrite (newURLs_throws _ str Hin Hbad). reflexivity.
  - intros Hin sys1 Hsonarr. cbn [sonarr radarr newURLs validateEach] in Hsonarr.
    rewrite (newURLs_throws _ str Hin Hbad).
    unfold bind in *.
    destruct (match newURLs P (sonarr config) with
              | Returns urls => validateEach P "Sonarr" urls
              | Throws exn => throw exn
              end sys) as [[[]|exn] sysA]; [|discriminate Hsonarr].
    inversion Hsonarr. reflexivity.
Qed.

Lemma firstn_prefix_length {A B} (R : A -> B -> Prop) l l' :
  Forall2 R (firstn (length l') l) l' -> length l' <= length l.
Proof.
  intros H. apply Forall2_length in H. rewrite length_firstn in H. lia.
Qed.

(** X11. With URLs configured, [validateUArrLs] pings a prefix of them,
    Sonarr first: every URL it pinged has an apikey parameter, every ping
    but the last was answered with a truthy [current], so that nothing is
    pinged after a failure, and nothing is logged. *)
Theorem validateUArrLs_stops (sys : Sys P) sonarrUrls radarrUrls :
  newURLs P (sonarr config) = Returns sonarrUrls ->
  newURLs P (radarr config) = Returns radarrUrls ->
  let urls := (sonarrUrls ++ radarrUrls)%list in
  exists res sys' pings,
    validateUArrLs P config sys = (res, sys') /\
    calls sys' = (calls sys ++ pings)%list /\
    logs sys' = logs sys /\
    Forall2 (fun u c => asks P (URL_href P u) "/api" c)
            (firstn (length pings) urls) pings /\
    forallb (searchParams_has "apikey") (firstn (length pings) urls) = true /\
    forallb (pingOk P) (removelast pings) = true.
Proof.
  intros Hs Hr urls.
  unfold validateUArrLs, validateInstances, getRuntimeConfig. rewrite Hs, Hr.
  destruct (validateEach_any "Sonarr" sonarrUrls sys)
    as (r1 & sys1 & p1 & Hrun1 & Hc1 & Hl1 & Hq1 & Hk1 & Hall1 & Hret1).
  unfold bind at 1. rewrite Hrun1.
  pose proof (firstn_prefix_length _ _ _ Hq1) as Hle1.
  destruct r1 as [[]|exn].
  - destruct (Hret1 eq_refl) as [Hlen1 Hok1].
    destruct (validateEach_any "Radarr" radarrUrls sys1)
      as (r2 & sys2 & p2 & Hrun2 & Hc2 & Hl2 & Hq2 & Hk2 & Hall2 & _).
    exists r2, sys2, (p1 ++ p2)%list. split; [exact Hrun2|].
    split; [rewrite Hc2, Hc1, <- app_assoc; reflexivity|].
    split; [congruence|].
    rewrite Hlen1, firstn_all in Hq1, Hk1.
    assert (Hfirst : firstn (length (p1 ++ p2)) urls
                     = (sonarrUrls ++ firstn (length p2) radarrUrls)%list).
    { unfold urls. rewrite length_app, Hlen1. apply firstn_app_2. }
    rewrite Hfirst.
    split; [apply Forall2_app; assumption|].
    split; [rewrite forallb_app, Hk1, Hk2; reflexivity|].
    destruct p2 as [|c2 p2'].
    + rewrite app_nil_r. exact Hall1.
    + rewrite removelast_app by discriminate.
      rewrite forallb_app, Hok1, Hall2. reflexivity.
  - exists (Throws exn), sys1, p1.
    split; [reflexivity|]. split; [exact Hc1|]. split; [exact Hl1|].
    assert (Hfirst : firstn (length p1) urls = firstn (length p1) sonarrUrls).
    { unfold urls. rewrite firstn_app.
      replace (length p1 - length sonarrUrls) with 0 by lia.
      rewrite firstn_0, app_nil_r. reflexivity. }
    rewrite Hfirst. repeat split; assumption.
Qed.

End Facts.

(** ** The theorems on the small platform *)

Example scan_without_result_log :
  map logged
      (logs (snd (scanAllArrsForMedia Toy.platform
                    {| sonarr := [Toy.emptyUrl]; radarr := [Toy.downUrl] |}
                    Toy.searchee OTHER Toy.start)))
  = ["Lookup failed for Show.S01.1080p-GRP.mkv - fetch failed";
     "Make sure the item is added to an Arr instance."].
Proof. vm_compute. reflexivity. Qed.

(** The error reported is the one of the call that failed last, also when a
    later instance answered without a truthy property. *)
Example scan_reports_earlier_failure :
  map logged
      (logs (snd (scanAllArrsForMedia Toy.platform
                    {| sonarr := [Toy.emptyUrl]; radarr := [Toy.downUrl; Toy.emptyUrl] |}
                    Toy.searchee ANIME Toy.start)))
  = ["Lookup failed for Show.S01.1080p-GRP.mkv - fetch failed";
     "Make sure the item is added to an Arr instance."].
Proof. vm_compute. reflexivity. Qed.

Example scan_invalid_instance :
  scanAllArrsForMedia Toy.platform
    {| sonarr := ["not a url"]; radarr := [] |} Toy.searchee EPISODE Toy.start
  = (Throws (TypeError "Invalid URL"), Toy.start).
Proof. vm_compute. reflexivity. Qed.

Example scan_body_lost_after_200 :
  fst (scanAllArrsForMedia Toy.platform
         {| sonarr := [Toy.emptyUrl; Toy.cutUrl; Toy.sonarrUrl]; radarr := [] |}
         Toy.searchee EPISODE Toy.start)
  = Throws (Raised Toy.terminated).
Proof. vm_compute. reflexivity. Qed.

Example validate_good_run :
  fst (validateUArrLs Toy.platform Toy.goodConfig Toy.start) = Returns tt.
Proof. vm_compute. reflexivity. Qed.


Lemma getRelevantArrIds_without_ids_witness :
  let caps :=
    {| movieIdSearch := {| capTvdbId := true; capTmdbId := true; capImdbId := true |};
       tvIdSearch := {| capTvdbId := false; capTmdbId := false; capImdbId := false |} |} in
  movie Toy.unknownAnswer = None /\
  series Toy.unknownAnswer = None /\
  getRelevantArrIds caps Toy.unknownAnswer
  = Returns {| tvdbid := None; tmdbid := None; imdbid := None |}.
Proof.
  intros caps. split; [reflexivity|]. split; [reflexivity|].
  exact (proj1 (getRelevantArrIds_without_ids caps Toy.unknownAnswer eq_refl eq_refl)
               eq_refl).
Defined.

Lemma makeArrApiCall_query_witness :
  validInstance Toy.platform Toy.sonarrUrl = true /\
  exists base c,
    URL_parse Toy.platform (sanitizeUrl Toy.platform Toy.sonarrUrl) = Some base /\
    calls (snd (makeArrApiCall Toy.platform Toy.json_ParsedMedia Toy.sonarrUrl
                  "/api/v3/parse" [("title", "a"); ("title", "b")] Toy.start))
    = (calls Toy.start ++ [c])%list /\
    searchParams_get "title" (url (request c)) = Some "b".
Proof.
  split; [reflexivity|].
  destruct (makeArrApiCall_query Toy.platform Toy.json_ParsedMedia Toy.sonarrUrl
              "/api/v3/parse" [("title", "a"); ("title", "b")] Toy.start eq_refl)
    as (base & c & Hbase & Hcalls & _ & Hget).
  exists base, c. split; [exact Hbase|]. split; [exact Hcalls|].
  exact (Hget "title").
Defined.

Lemma makeArrApiCall_outcomes_witness :
  validInstance Toy.platform "http://other/?apikey=1" = true /\
  exists res sys' c,
    makeArrApiCall Toy.platform Toy.json_ParsedMedia
      "http://other/?apikey=1" "/api/v3/parse" [("title", "x")] Toy.start
    = (res, sys') /\
    calls sys' = (calls Toy.start ++ [c])%list /\
    res = Returns (Err (Error "404 Not Found first 1000 characters: <html>nothing here</html>")).
Proof.
  split; [reflexivity|].
  destruct (makeArrApiCall_outcomes Toy.platform Toy.json_ParsedMedia
              "http://other/?apikey=1" "/api/v3/parse" [("title", "x")]
              Toy.start eq_refl)
    as (res & sys' & c & Hrun & Hcalls & _).
  exists res, sys', c. split; [exact Hrun|]. split; [exact Hcalls|].
  assert (Hres : res = fst (makeArrApiCall Toy.platform Toy.json_ParsedMedia
                              "http://other/?apikey=1" "/api/v3/parse"
                              [("title", "x")] Toy.start))
    by (rewrite Hrun; reflexivity).
  rewrite Hres. vm_compute. reflexivity.
Defined.

Lemma validateUArrLs_passed_witness :
  let run := validateUArrLs Toy.platform Toy.goodConfig Toy.start in
  run = (Returns tt, snd run) /\
  exists pings,
    calls (snd run) = (calls Toy.start ++ pings)%list /\
    forallb (pingOk Toy.platform) pings = true.
Proof.
  intros run.
  assert (Hrun : run = (Returns tt, snd run)) by (vm_compute; reflexivity).
  split; [exact Hrun|].
  destruct (validateUArrLs_passed Toy.platform Toy.goodConfig Toy.start (snd run) Hrun)
    as (sonarrUrls & radarrUrls & pings & _ & _ & _ & Hcalls & _ & Hok & _).
  exists pings. split; [exact Hcalls | exact Hok].
Defined.

Lemma validateUArrLs_not_a_URL_witness :
  URL_parse Toy.platform "not a url" = None /\
  In "not a url" (sonarr Toy.badConfig) /\
  validateUArrLs Toy.platform Toy.badConfig Toy.start
  = (Throws (TypeError "Invalid URL"), Toy.start).
Proof.
  assert (Hbad : URL_parse Toy.platform "not a url" = None) by reflexivity.
  assert (Hin : In "not a url" (sonarr Toy.badConfig)) by (right; left; reflexivity).
  split; [exact Hbad|]. split; [exact Hin|].
  exact (proj1 (validateUArrLs_not_a_URL Toy.platform Toy.badConfig "not a url"
                  Toy.start Hbad) Hin).
Defined.

Lemma validateUArrLs_stops_witness :
  newURLs Toy.platform (sonarr Toy.config) = Returns Toy.sonarrUrls /\
  newURLs Toy.platform (radarr Toy.config) = Returns Toy.radarrUrls /\
  exists res sys' pings,
    validateUArrLs Toy.platform Toy.config Toy.start = (res, sys') /\
    calls sys' = (calls Toy.start ++ pings)%list /\
    forallb (pingOk Toy.platform) (removelast pings) = true.
Proof.
  split; [reflexivity|]. split; [reflexivity|].
  destruct (validateUArrLs_stops Toy.platform Toy.config Toy.start
              Toy.sonarrUrls Toy.radarrUrls eq_refl eq_refl)
    as (res & sys' & pings & Hrun & Hcalls & _ & _ & _ & Hall).
  exists res, sys', pings. split; [exact Hrun|]. split; [exact Hcalls | exact Hall].
Defined.

End ArrMore.


(** * Further properties of the database handles *)

Module DbMore.

Import Db.

(** A statement reaches the database of its connection and no other. *)
Lemma run_elsewhere knex stmt st c :
  conn knex <> c -> databaseAt c (run knex stmt st) = databaseAt c st.
Proof.
  intros Hne. unfold run.
  destruct (databaseAt (conn knex) st) as [d|]; [|reflexivity].
  destruct (apply stmt d) as [d'|]; [|reflexivity].
  destruct (conn knex) as [f | m], c as [g | n]; simpl; try reflexivity.
  - rewrite lookup_insert_ne by congruence. reflexivity.
  - apply list_lookup_insert_ne. congruence.
Qed.

Lemma runAll_elsewhere knex stmts c :
  conn knex <> c ->
  forall st, databaseAt c (runAll knex stmts st) = databaseAt c st.
Proof.
  intros Hne. unfold runAll.
  induction stmts as [|stmt rest IH]; intros st; simpl; [reflexivity|].
  rewrite IH. apply run_elsewhere. exact Hne.
Qed.

Lemma open_files_elsewhere by_ name st g :
  g <> name -> files (snd (open by_ name st)) !! g = files st !! g.
Proof.
  intros Hne. unfold open.
  destruct (String.eqb name ":memory:" || String.eqb name ""); simpl;
    [reflexivity|].
  apply lookup_insert_ne. congruence.
Qed.

Lemma open_conn by_ name st :
  fst (open by_ name st) = File name \/
  fst (open by_ name st) = Private (length (privates st)).
Proof.
  unfold open.
  destruct (String.eqb name ":memory:" || String.eqb name ""); simpl; auto.
Qed.

Lemma open_privates by_ name st :
  fst (open by_ name st) = Private (length (privates st)) ->
  length (privates (snd (open by_ name st))) = S (length (privates st)).
Proof.
  unfold open.
  destruct (String.eqb name ":memory:" || String.eqb name ""); simpl.
  - intros _. rewrite length_app. simpl. lia.
  - discriminate.
Qed.

Lemma pragma_files_elsewhere handle source st g :
  handle <> File g ->
  files (Sqlite_pragma handle source st) !! g = files st !! g.
Proof.
  intros Hne. unfold Sqlite_pragma. rewrite DbSpec.files_record.
  destruct (String.eqb source "journal_mode = WAL"); [|reflexivity].
  destruct handle as [f | slot];
    [|destruct (databaseAt (Private slot) st); reflexivity].
  simpl. apply lookup_insert_ne. congruence.
Qed.

Section Module.

Context (appDir : string) (join : string -> string -> string).

(** The steps of the initialisation, whatever the filename is. *)
Lemma initialise_steps (st : State) :
  exists raw st1 c4 st4,
    open Sqlite (filename appDir join) st = (raw, st1) /\
    open Knex (filename appDir join)
      (Sqlite_close raw (Sqlite_pragma raw "journal_mode = WAL" st1)) = (c4, st4) /\
    conn (db (fst (initialise appDir join st))) = c4 /\
    conn (memDB (fst (initialise appDir join st))) = Private (length (privates st4)) /\
    files (snd (initialise appDir join st)) = files st4.
Proof.
  unfold initialise, Sqlite_new.
  destruct (open Sqlite (filename appDir join) st) as [raw st1] eqn:H1.
  set (st3 := Sqlite_close raw (Sqlite_pragma raw "journal_mode = WAL" st1)).
  unfold Knex_knex at 1 3 5. cbn [connection].
  destruct (open Knex (filename appDir join) st3) as [c4 st4] eqn:H4.
  rewrite DbSpec.Knex_knex_memory by reflexivity.
  exists raw, st1, c4, st4. cbn [fst snd db memDB conn].
  split; [reflexivity|]. split; [exact H4|]. split; [reflexivity|].
  split; [reflexivity|].
  rewrite !(DbSpec.run_private_files _ (length (privates st4))) by reflexivity.
  reflexivity.
Qed.

(** X12. The initialisation creates or changes no database file but
    cross-seed.db under the application directory. *)
Theorem initialise_other_files (st : State) :
  delete (filename appDir join) (files (snd (initialise appDir join st)))
  = delete (filename appDir join) (files st).
Proof.
  apply map_eq. intros g.
  destruct (decide (filename appDir join = g)) as [<-|Hne].
  - rewrite !lookup_delete_eq. reflexivity.
  - rewrite !lookup_delete_ne by exact Hne.
    destruct (initialise_steps st) as (raw & st1 & c4 & st4 & H1 & H4 & _ & _ & ->).
    pose proof (open_files_elsewhere Sqlite (filename appDir join) st g) as E1.
    pose proof (open_conn Sqlite (filename appDir join) st) as Hraw.
    rewrite H1 in E1, Hraw. cbn [fst snd] in E1, Hraw.
    match type of H4 with
    | open Knex _ ?st3 = _ =>
        pose proof (open_files_elsewhere Knex (filename appDir join) st3 g) as E4
    end.
    rewrite H4 in E4. cbn [snd] in E4.
    rewrite E4 by congruence. unfold Sqlite_close. rewrite DbSpec.files_record.
    rewrite pragma_files_elsewhere; [apply E1; congruence|].
    destruct Hraw as [-> | ->]; congruence.
Qed.

(** The two exported handles are connections to different databases. *)
Lemma initialise_two_databases (st : State) :
  conn (db (fst (initialise appDir join st)))
  <> conn (memDB (fst (initialise appDir join st))).
Proof.
  destruct (initialise_steps st) as (raw & st1 & c4 & st4 & _ & H4 & -> & -> & _).
  match type of H4 with
  | open Knex _ ?st3 = _ =>
      pose proof (open_conn Knex (filename appDir join) st3) as Hdb;
      pose proof (open_privates Knex (filename appDir join) st3) as Hlen
  end.
  rewrite H4 in Hdb, Hlen. cbn [fst snd] in Hdb, Hlen.
  destruct Hdb as [-> | Hpriv]; [discriminate|].
  rewrite Hpriv. rewrite (Hlen Hpriv). intros H. inversion H. lia.
Qed.

(** X13. Neither exported handle reaches the database of the other:
    whatever statements are run through [db], the database of [memDB] is as
    it was, and whatever is run through [memDB], the database of [db] is as
    it was. *)
Theorem handles_are_isolated (st : State) :
  let exports := fst (initialise appDir join st) in
  forall stmts later,
    databaseAt (conn (memDB exports)) (runAll (db exports) stmts later)
    = databaseAt (conn (memDB exports)) later /\
    databaseAt (conn (db exports)) (runAll (memDB exports) stmts later)
    = databaseAt (conn (db exports)) later.
Proof.
  intros exports stmts later.
  pose proof (initialise_two_databases st) as Hne. fold exports in Hne.
  split; apply runAll_elsewhere; congruence.
Qed.

End Module.

End DbMore.
